(** * Jobly: the partial-update and filtered-search query builders

    A shallow embedding of [helpers/sql.js], [models/company.js],
    [models/job.js] and the handlers of [routes/jobs.js], with the
    properties of the builders and of the entity access layer. *)

From Stdlib Require Import QArith.
From stdpp Require Import base numbers list strings pretty sorting.

Local Open Scope string_scope.

(** ** JavaScript values, as far as the builders look at them *)

Module Js.

(** The double-quote character, code 34. *)
Definition dquote : string := String (Ascii.ascii_of_nat 34) EmptyString.

(** The values a property read on a translation table can produce: the
    table's own entries, and what an object literal inherits from
    [Object.prototype] (built-in functions, and the prototype object itself
    through the [__proto__] accessor). *)
Inductive value : Type :=
| VUndefined
| VNull
| VBool (b : bool)
| VString (s : string)
| VNative (name : string)
| VObject.

(** [ToBoolean]. *)
Definition truthy (v : value) : bool :=
  match v with
  | VUndefined | VNull => false
  | VBool b => b
  | VString s => negb (String.eqb s EmptyString)
  | VNative _ | VObject => true
  end.

(** [ToString], as [String.prototype.concat] applies it to its arguments.
    A built-in function prints the way V8 prints it. *)
Definition ToString (v : value) : string :=
  match v with
  | VUndefined => "undefined"
  | VNull => "null"
  | VBool true => "true"
  | VBool false => "false"
  | VString s => s
  | VNative name => "function " +:+ name +:+ "() { [native code] }"
  | VObject => "[object Object]"
  end.

(** [a || b]. *)
Definition or (a b : value) : value := if truthy a then a else b.

(** An object is the list of its own enumerable string-keyed properties,
    in the order [Object.keys] and [Object.values] visit them. *)
Abbreviation object A := (list (string * A)) (only parsing).

Definition Object_keys {A} (o : object A) : list string := o.*1.
Definition Object_values {A} (o : object A) : list A := o.*2.

Fixpoint own {A} (o : object A) (k : string) : option A :=
  match o with
  | [] => None
  | (k', v) :: o' => if String.eqb k' k then Some v else own o' k
  end.

(** The properties of [Object.prototype], which every object literal
    inherits. *)
Definition Object_prototype : object value :=
  [ ("constructor", VNative "Object");
    ("__defineGetter__", VNative "__defineGetter__");
    ("__defineSetter__", VNative "__defineSetter__");
    ("hasOwnProperty", VNative "hasOwnProperty");
    ("__lookupGetter__", VNative "__lookupGetter__");
    ("__lookupSetter__", VNative "__lookupSetter__");
    ("isPrototypeOf", VNative "isPrototypeOf");
    ("propertyIsEnumerable", VNative "propertyIsEnumerable");
    ("toString", VNative "toString");
    ("valueOf", VNative "valueOf");
    ("__proto__", VObject);
    ("toLocaleString", VNative "toLocaleString") ].

(** [o[k]] on an object literal: the own property if there is one, else
    the inherited one, else [undefined]. *)
Definition get (o : object value) (k : string) : value :=
  match own o k with
  | Some v => v
  | None => default VUndefined (own Object_prototype k)
  end.

(** [Array.prototype.join] on an array of strings. *)
Definition join (sep : string) (l : list string) : string :=
  String.concat sep l.

(** The message of an [ExpressError]: a string, or the array of error
    stacks a schema validation hands over. *)
Inductive message : Type :=
| Text (s : string)
| Stacks (errs : list string).

(** The errors the code throws, and the failures of the store, which the
    code lets through. *)
Inductive error : Type :=
| BadRequestError (msg : message)
| NotFoundError (msg : message)
| TypeError (msg : string)
| ReferenceError (msg : string)
| StoreError (msg : string).

Inductive result (A : Type) : Type :=
| Return (a : A)
| Throw (e : error).
Global Arguments Return {A} a.
Global Arguments Throw {A} e.

End Js.

Import Js.

(** ** helpers/sql.js *)

Module Sql.

Record fragment (A : Type) : Type :=
  { setCols : string; values : list A }.
Global Arguments setCols {A} f.
Global Arguments values {A} f.
Global Arguments Build_fragment {A} setCols values.

(** [jsToSql[colName] || colName], converted to a string by [concat]. *)
Definition column (jsToSql : object value) (colName : string) : string :=
  ToString (or (get jsToSql colName) (VString colName)).

(** The callback of [keys.map]. *)
Definition col (jsToSql : object value) (idx : nat) (colName : string)
  : string :=
  dquote +:+ column jsToSql colName +:+ dquote +:+ "=$" +:+ pretty (idx + 1).

Definition cols {A} (dataToUpdate : object A) (jsToSql : object value)
  : list string :=
  imap (col jsToSql) (Object_keys dataToUpdate).

Definition sqlForPartialUpdate {A} (dataToUpdate : object A)
    (jsToSql : object value) : result (fragment A) :=
  let keys := Object_keys dataToUpdate in
  if Nat.eqb (length keys) 0 then Throw (BadRequestError (Text "No data"))
  else
    Return {| setCols := join ", " (cols dataToUpdate jsToSql);
              values := Object_values dataToUpdate |}.

End Sql.

Import Sql.

(** ** The persistence engine *)

Module Db.

(** A value bound to a placeholder. Numbers are the integers the columns
    hold; a [NUMERIC] is kept as the rational it denotes. *)
Inductive param : Type :=
| PNull
| PBool (b : bool)
| PNumber (n : Z)
| PNumeric (q : Q)
| PString (s : string).

(** The rows of table [companies]. *)
Module companies.
Record row : Type :=
  { handle : string;
    name : string;
    description : string;
    num_employees : option Z;
    logo_url : option string }.
End companies.

(** The rows of table [jobs]; the columns are those [Job.create] fills
    and reads back. *)
Module jobs.
Record row : Type :=
  { id : Z;
    title : string;
    salary : option Z;
    equity : option Q;
    company_handle : string }.
End jobs.

Record tables : Type :=
  { companies : list companies.row;
    jobs : list jobs.row;
    jobs_id_seq : Z }.

(** A call of [db.query]. The text of a statement is written with every
    run of layout white space of the source as one blank. *)
Record statement : Type :=
  { text : string; params : list param }.

(** The store, and the statements sent to it so far. *)
Record world : Type :=
  { store : tables; issued : list statement }.

(** An [async] function of the access layer. *)
Definition M (A : Type) : Type := world -> result A * world.

Definition ret {A} (a : A) : M A := fun w => (Return a, w).
Definition throw {A} (e : error) : M A := fun w => (Throw e, w).
Definition bind {A B} (m : M A) (k : A -> M B) : M B :=
  fun w =>
    match m w with
    | (Return a, w') => k a w'
    | (Throw e, w') => (Throw e, w')
    end.
(** A synchronous call inside an [async] function. *)
Definition lift {A} (r : result A) : M A := fun w => (r, w).

(** [await db.query(text, args)]: the statement is recorded and run;
    [run] is what the store does with it. *)
Definition query {R} (run : tables -> result (list R) * tables)
    (sql : string) (args : list param) : M (list R) :=
  fun w =>
    let '(r, t) := run (store w) in
    (r, {| store := t;
           issued := (issued w ++ [ {| text := sql; params := args |} ])%list |}).

End Db.

Import Db.

Notation "'let*' x := m 'in' k" := (bind m (fun x => k))
  (at level 10, x pattern, m at level 100, k at level 200, only parsing).

(** The builder, as the access layer calls it. *)
Definition builder : Type :=
  object param -> object value -> result (fragment param).

(** What a module binds a required name to: a function, an exports object
    whose members are functions, or nothing. *)
Inductive binding : Type :=
| Undefined
| Function (f : builder)
| Exports (members : object builder).

(** [module.exports] of helpers/sql.js. *)
Definition helpers_sql : binding :=
  Exports [ ("sqlForPartialUpdate", sqlForPartialUpdate) ].

(** [const { name } = exports]. *)
Definition destructure (name : string) (b : binding) : binding :=
  match b with
  | Exports members => from_option Function Undefined (own members name)
  | _ => Undefined
  end.

(** [callee(data, jsToSql)], where [callee] is the identifier [name]. *)
Definition call (name : string) (callee : binding)
    (data : object param) (jsToSql : object value)
  : result (fragment param) :=
  match callee with
  | Function f => f data jsToSql
  | _ => Throw (TypeError (name +:+ " is not a function"))
  end.

(** ** models/company.js *)

Module Company.

(** [const { sqlForPartialUpdate } = require(helpers/sql)]. *)
Definition sqlForPartialUpdate : binding :=
  destructure "sqlForPartialUpdate" helpers_sql.

(** A company, as the statements return it. *)
Record company : Type :=
  { handle : string;
    name : string;
    description : string;
    numEmployees : option Z;
    logoUrl : option string }.

(** An entry of the [jobs] attribute: the object [json_build_object]
    makes of the [id], [title], [salary] and [equity] of a joined row. *)
Record job_entry : Type :=
  { id : option Z;
    title : option string;
    salary : option Z;
    equity : option Q }.

(** A row of the statement of [get]: the attributes of the company and
    [jobs], which is what [json_agg] returns, [None] standing for SQL
    NULL. *)
Record company_with_jobs : Type :=
  { the_company : company;
    jobs : option (list job_entry) }.

Definition of_row (c : companies.row) : company :=
  {| handle := companies.handle c;
     name := companies.name c;
     description := companies.description c;
     numEmployees := companies.num_employees c;
     logoUrl := companies.logo_url c |}.

(** The column list [handle, name, description, num_employees AS
    numEmployees, logo_url AS logoUrl], shared by the statements. *)
Definition columns : string :=
  "handle, name, description, num_employees AS " +:+ dquote
  +:+ "numEmployees" +:+ dquote +:+ ", logo_url AS " +:+ dquote
  +:+ "logoUrl" +:+ dquote.

(** *** The statement of [get] *)

(** [companies c LEFT JOIN jobs j ON c.handle = j.company_handle]: a
    company without a matching job is kept, with a job side of NULLs. *)
Definition left_join (cs : list companies.row) (js : list jobs.row)
  : list (companies.row * option jobs.row) :=
  c ← cs;
  match filter (fun j => companies.handle c = jobs.company_handle j) js with
  | [] => [ (c, None) ]
  | matching => (fun j => (c, Some j)) <$> matching
  end.

(** [json_build_object('id', j.id, 'title', j.title, 'salary', j.salary,
    'equity', j.equity)] on a joined row. *)
Definition json_build_object (j : option jobs.row) : job_entry :=
  {| id := jobs.id <$> j;
     title := jobs.title <$> j;
     salary := j ≫= jobs.salary;
     equity := j ≫= jobs.equity |}.

(** [json_agg]: the array of its inputs, NULL when there is none. The
    statement asks for no order of the array; the inputs are taken in the
    order of the joined rows. *)
Definition json_agg {A} (xs : list A) : option (list A) :=
  match xs with
  | [] => None
  | _ => Some xs
  end.

(** [GROUP BY c.handle], each group giving one row. *)
Definition group_by_handle (rows : list (companies.row * option jobs.row))
  : list company_with_jobs :=
  h ← remove_dups ((fun r => companies.handle r.1) <$> rows);
  let group := filter (fun r => companies.handle r.1 = h) rows in
  match group with
  | [] => []
  | (c, _) :: _ =>
      [ {| the_company := of_row c;
           jobs := json_agg (json_build_object <$> group.*2) |} ]
  end.

Definition select_with_jobs (h : string) (t : tables)
  : result (list company_with_jobs) * tables :=
  (Return (group_by_handle
             (filter (fun r => companies.handle r.1 = h)
                     (left_join (Db.companies t) (Db.jobs t)))), t).

Definition get_sql : string :=
  "SELECT " +:+ columns
  +:+ ", json_agg(json_build_object('id', j.id, 'title', j.title, "
  +:+ "'salary', j.salary, 'equity', j.equity)) AS jobs "
  +:+ "FROM companies c LEFT JOIN jobs j on c.handle = j.company_handle "
  +:+ "WHERE handle = $1 GROUP BY c.handle".

Definition get (handle : string) : M company_with_jobs :=
  let* companyRes :=
    query (select_with_jobs handle) get_sql [ PString handle ] in
  match companyRes !! 0 with
  | None => throw (NotFoundError (Text ("No company: " +:+ handle)))
  | Some company => ret company
  end.

(** The filters of [findFiltered]: [None] is an absent key. *)
Module filters.
Record t : Type :=
  { name : option string;
    minEmployees : option Z;
    maxEmployees : option Z }.
End filters.

(** [x !== undefined]. *)
Definition defined {A} (x : option A) : bool :=
  match x with Some _ => true | None => false end.

(** [minEmployees > maxEmployees], both being numbers. *)
Definition gt (a b : option Z) : bool :=
  match a, b with
  | Some x, Some y => (y <? x)%Z
  | _, _ => false
  end.

(** [queryParams.push(v)] followed by
    [whereClauses.push(lhs + "$" + queryParams.length)]. *)
Definition push (lhs : string) (v : param)
    (arrays : list string * list param) : list string * list param :=
  let queryParams := (arrays.2 ++ [ v ])%list in
  ((arrays.1 ++ [ lhs +:+ "$" +:+ pretty (length queryParams) ])%list,
   queryParams).

(** The three [if] blocks filling [whereClauses] and [queryParams]. *)
Definition predicates (f : filters.t) : list string * list param :=
  let arrays := ([], []) in
  let arrays :=
    match filters.name f with
    | Some name =>
        if truthy (VString name)
        then push "name ILIKE " (PString ("%" +:+ name +:+ "%")) arrays
        else arrays
    | None => arrays
    end in
  let arrays :=
    match filters.minEmployees f with
    | Some minEmployees =>
        push "num_employees >= " (PNumber minEmployees) arrays
    | None => arrays
    end in
  match filters.maxEmployees f with
  | Some maxEmployees =>
      push "num_employees <= " (PNumber maxEmployees) arrays
  | None => arrays
  end.

Definition whereClause (whereClauses : list string) : string :=
  if Nat.ltb 0 (length whereClauses)
  then "WHERE" +:+ join " AND " whereClauses
  else EmptyString.

Definition findFiltered_sql (f : filters.t) : string :=
  "SELECT " +:+ columns +:+ " FROM companies "
  +:+ whereClause (predicates f).1 +:+ " ORDER BY name".

Definition update_sql (setCols handleVarIdx : string) : string :=
  "UPDATE companies SET " +:+ setCols +:+ " WHERE handle = "
  +:+ handleVarIdx +:+ " RETURNING " +:+ columns.

(** The translation table [update] hands to the builder. *)
Definition jsToSql : object value :=
  [ ("numEmployees", VString "num_employees");
    ("logoUrl", VString "logo_url") ].

Section Engine.

(** The store, running a statement whose text is put together at run
    time and which returns companies. *)
Variable pg :
  string -> list param -> tables -> result (list company) * tables.

Definition update (handle : string) (data : object param) : M company :=
  let* fragment :=
    lift (call "sqlForPartialUpdate" sqlForPartialUpdate data jsToSql) in
  let setCols := Sql.setCols fragment in
  let values := Sql.values fragment in
  let handleVarIdx := "$" +:+ pretty (length values + 1) in
  let querySql := update_sql setCols handleVarIdx in
  let args := (values ++ [ PString handle ])%list in
  let* result := query (pg querySql args) querySql args in
  match result !! 0 with
  | None => throw (NotFoundError (Text ("No company: " +:+ handle)))
  | Some company => ret company
  end.

Definition findFiltered (f : filters.t) : M (list company) :=
  if defined (filters.minEmployees f) && defined (filters.maxEmployees f)
     && gt (filters.minEmployees f) (filters.maxEmployees f)
  then
    throw (BadRequestError
             (Text "minEmployees cannot be greater than maxEmployees"))
  else
    let queryParams := (predicates f).2 in
    query (pg (findFiltered_sql f) queryParams)
          (findFiltered_sql f) queryParams.

End Engine.

(** *** [create], [findAll] and [remove] *)

(** The statement of the duplicate check: the handles equal to [h]. *)
Definition select_handle (h : string) (t : tables)
  : result (list string) * tables :=
  (Return (companies.handle <$>
             filter (fun c => companies.handle c = h) (Db.companies t)), t).

Definition duplicateCheck_sql : string :=
  "SELECT handle FROM companies WHERE handle = $1".

Definition insert_sql : string :=
  "INSERT INTO companies (handle, name, description, num_employees, logo_url) "
  +:+ "VALUES ($1, $2, $3, $4, $5) RETURNING " +:+ columns.

Definition findAll_sql : string :=
  "SELECT " +:+ columns +:+ " FROM companies ORDER BY name".

Definition remove_sql : string :=
  "DELETE FROM companies WHERE handle = $1 RETURNING handle".

Section Store.

(** The store running the [INSERT], whose outcome depends on the
    constraints of a schema that is not among the sources. *)
Variable pg :
  string -> list param -> tables -> result (list company) * tables.

(** The order of [ORDER BY name] under the collation of the store. *)
Variable collate : string -> string -> bool.

(** Modelled from the spec: the schema of table [jobs] is not among the
    sources; jobs carry a foreign key to a company handle. What the store
    does with the jobs of a deleted company is the schema's choice:
    [cascade] deletes them as well, otherwise the delete fails while such
    jobs exist. *)
Variable cascade : bool.

Definition create (data : company) : M (option company) :=
  let* duplicateCheck :=
    query (select_handle (handle data)) duplicateCheck_sql
          [ PString (handle data) ] in
  match duplicateCheck !! 0 with
  | Some _ =>
      throw (BadRequestError (Text ("Duplicate company: " +:+ handle data)))
  | None =>
      let args :=
        [ PString (handle data);
          PString (name data);
          PString (description data);
          from_option PNumber PNull (numEmployees data);
          from_option PString PNull (logoUrl data) ] in
      let* result := query (pg insert_sql args) insert_sql args in
      ret (result !! 0)
  end.

Definition select_all (t : tables) : result (list company) * tables :=
  (Return (of_row <$>
             merge_sort
               (fun a b => collate (companies.name a) (companies.name b))
               (Db.companies t)), t).

Definition findAll : M (list company) :=
  let* companiesRes := query select_all findAll_sql [] in
  ret companiesRes.

Definition delete_company (h : string) (t : tables)
  : result (list string) * tables :=
  let deleted := filter (fun c => companies.handle c = h) (Db.companies t) in
  let referring := filter (fun j => jobs.company_handle j = h) (Db.jobs t) in
  match deleted, referring, cascade with
  | [], _, _ => (Return [], t)
  | _ :: _, _ :: _, false => (Throw (StoreError "foreign key violation"), t)
  | _, _, _ =>
      (Return (companies.handle <$> deleted),
       {| Db.companies :=
            filter (fun c => companies.handle c ≠ h) (Db.companies t);
          Db.jobs := filter (fun j => jobs.company_handle j ≠ h) (Db.jobs t);
          jobs_id_seq := jobs_id_seq t |})
  end.

Definition remove (handle : string) : M unit :=
  let* result :=
    query (delete_company handle) remove_sql [ PString handle ] in
  match result !! 0 with
  | None => throw (NotFoundError (Text ("No company: " +:+ handle)))
  | Some _ => ret tt
  end.

End Store.

End Company.

(** ** models/job.js *)

Module Job.

(** [const sqlForPartialUpdate = require(helpers/sql)]: the name is
    bound to the exports object itself. *)
Definition sqlForPartialUpdate : binding := helpers_sql.

(** A job, as the statements return it. *)
Record job : Type :=
  { id : Z;
    title : string;
    salary : option Z;
    equity : option Q;
    companyHandle : string }.

Definition of_row (j : jobs.row) : job :=
  {| id := jobs.id j;
     title := jobs.title j;
     salary := jobs.salary j;
     equity := jobs.equity j;
     companyHandle := jobs.company_handle j |}.

(** The argument of [create]. *)
Module data.
Record t : Type :=
  { title : string;
    salary : option Z;
    equity : option Q;
    companyHandle : string }.
End data.

Definition columns : string :=
  "id, title, salary, equity, company_handle AS " +:+ dquote
  +:+ "companyHandle" +:+ dquote.

(** Modelled from the spec: the schema of table [jobs] is not among the
    sources; a job is keyed by a surrogate numeric id, which the store
    draws from a sequence, and carries a foreign key to a company handle,
    so that an insert naming no company fails in the store. *)
Definition insert_job (d : data.t) (t : tables)
  : result (list job) * tables :=
  if bool_decide (data.companyHandle d ∈ companies.handle <$> Db.companies t)
  then
    let row :=
      {| jobs.id := jobs_id_seq t;
         jobs.title := data.title d;
         jobs.salary := data.salary d;
         jobs.equity := data.equity d;
         jobs.company_handle := data.companyHandle d |} in
    (Return [ of_row row ],
     {| Db.companies := Db.companies t;
        Db.jobs := (Db.jobs t ++ [ row ])%list;
        jobs_id_seq := (jobs_id_seq t + 1)%Z |})
  else (Throw (StoreError "foreign key violation"), t).

Definition create_sql : string :=
  "INSERT INTO jobs (title, salary, equity, company_handle) "
  +:+ "VALUES ($1, $2, $3, $4) RETURNING " +:+ columns.

Definition create (d : data.t) : M (option job) :=
  let* result :=
    query (insert_job d) create_sql
      [ PString (data.title d);
        from_option PNumber PNull (data.salary d);
        from_option PNumeric PNull (data.equity d);
        PString (data.companyHandle d) ] in
  ret (result !! 0).

Definition findAll_sql : string :=
  "SELECT " +:+ columns +:+ " FROM jobs ORDER BY title".

Definition update_sql (setCols idVarIdx : string) : string :=
  "UPDATE jobs SET " +:+ setCols +:+ " WHERE id = " +:+ idVarIdx
  +:+ " RETURNING " +:+ columns.

(** Reading the identifier [name] where the [const]s of [scope] are
    declared. *)
Definition identifier (name : string) (scope : object string)
  : result string :=
  match own scope name with
  | Some v => Return v
  | None => Throw (ReferenceError (name +:+ " is not defined"))
  end.

Section Engine.

(** The order of [ORDER BY title] under the collation of the store. *)
Variable collate : string -> string -> bool.

(** The store, running a statement whose text is put together at run
    time and which returns jobs. *)
Variable pg : string -> list param -> tables -> result (list job) * tables.

Definition select_all (t : tables) : result (list job) * tables :=
  (Return (of_row <$>
             merge_sort (fun a b => collate (jobs.title a) (jobs.title b))
                        (Db.jobs t)), t).

Definition findAll : M (list job) :=
  let* jobsRes := query select_all findAll_sql [] in
  ret jobsRes.

(** [update], with the binding of [sqlForPartialUpdate] as an
    argument. *)
Definition update_with (callee : binding) (id : string)
    (data : object param) : M job :=
  let* fragment :=
    lift (call "sqlForPartialUpdate" callee data
            [ ("title", VString "title");
              ("salary", VString "salary");
              ("equity", VString "equity") ]) in
  let setCols := Sql.setCols fragment in
  let values := Sql.values fragment in
  let idVarIdx := "$" +:+ pretty (length values + 1) in
  let querySQL := update_sql setCols idVarIdx in
  let scope :=
    [ ("setCols", setCols); ("idVarIdx", idVarIdx);
      ("querySQL", querySQL) ] in
  let* querySql := lift (identifier "querySql" scope) in
  let args := (values ++ [ PString id ])%list in
  let* result := query (pg querySql args) querySql args in
  match result !! 0 with
  | None => throw (NotFoundError (Text ("No job with ID: " +:+ id)))
  | Some job => ret job
  end.

Definition update : string -> object param -> M job :=
  update_with sqlForPartialUpdate.

End Engine.

(** *** [get] and [remove] *)

Definition get_sql : string :=
  "SELECT " +:+ columns +:+ " FROM jobs WHERE id = $1".

Definition remove_sql : string :=
  "DELETE FROM jobs WHERE id = $1 RETURNING id".

Section Store.

(** The store reading a bound text as a value of the integer column [id];
    [None] when the text is no integer, which fails the statement. *)
Variable int4in : string -> option Z.

Definition select_job (id : string) (t : tables)
  : result (list job) * tables :=
  match int4in id with
  | None => (Throw (StoreError "invalid input syntax for type integer"), t)
  | Some n => (Return (of_row <$> filter (fun j => jobs.id j = n) (Db.jobs t)), t)
  end.

Definition get (id : string) : M job :=
  let* jobRes := query (select_job id) get_sql [ PString id ] in
  match jobRes !! 0 with
  | None => throw (NotFoundError (Text ("No job with ID: " +:+ id)))
  | Some job => ret job
  end.

(** The jobs with the given id leave the table; the rows of other tables
    that refer to them are outside this model. *)
Definition delete_job (id : string) (t : tables)
  : result (list Z) * tables :=
  match int4in id with
  | None => (Throw (StoreError "invalid input syntax for type integer"), t)
  | Some n =>
      (Return (jobs.id <$> filter (fun j => jobs.id j = n) (Db.jobs t)),
       {| Db.companies := Db.companies t;
          Db.jobs := filter (fun j => jobs.id j ≠ n) (Db.jobs t);
          jobs_id_seq := jobs_id_seq t |})
  end.

Definition remove (id : string) : M unit :=
  let* result := query (delete_job id) remove_sql [ PString id ] in
  match result !! 0 with
  | None => throw (NotFoundError (Text ("No job with ID: " +:+ id)))
  | Some _ => ret tt
  end.

End Store.

End Job.

(** ** routes/jobs.js: [GET /] *)

Module JobsRoute.

Inductive response : Type :=
| res_json (jobs : list Job.job)
| next (err : error).

Section Handler.

(** Numbers, and the unary [+] on a string. *)
Variable number : Type.
Variable ToNumber : string -> number.

(** A value of [req.query] after the conversions. *)
Inductive qvalue : Type :=
| QString (s : string)
| QNumber (n : number)
| QBoolean (b : bool).

(** [jsonschema.validate(query, jobSearchSchema).errors], as error
    stacks; the schema is not among the sources. *)
Variable validate : object qvalue -> list string.

Variable collate : string -> string -> bool.

(** The two conversions: [query.minSalary = +query.minSalary] and
    [query.hasEquity = query.hasEquity === true-as-a-string], each applied
    when the key is there; the other keys keep their strings. *)
Definition converted (entry : string * string) : string * qvalue :=
  let '(k, s) := entry in
  if String.eqb k "minSalary" then (k, QNumber (ToNumber s))
  else if String.eqb k "hasEquity" then (k, QBoolean (String.eqb s "true"))
  else (k, QString s).

(** The handler; [req.query] holds strings. *)
Definition GET (req_query : object string) : M response :=
  let query := converted <$> req_query in
  let errors := validate query in
  if negb (Nat.eqb (length errors) 0)
  then ret (next (BadRequestError (Stacks errors)))
  else
    fun w =>
      match Job.findAll collate w with
      | (Return jobs, w') => (Return (res_json jobs), w')
      | (Throw err, w') => (Return (next err), w')
      end.

End Handler.

(** *** The handlers of [POST /], [GET /:id], [PATCH /:id] and
    [DELETE /:id], as they run once the middleware has let the request
    through *)

Inductive reply : Type :=
| created (job : option Job.job)
| json_job (job : Job.job)
| json_deleted (id : string)
| pass (err : error).

(** [try { ... } catch (err) { return next(err) }]. *)
Definition try_next {A} (m : M A) (respond : A -> reply) : M reply :=
  fun w =>
    match m w with
    | (Return a, w') => (Return (respond a), w')
    | (Throw err, w') => (Return (pass err), w')
    end.

Section Handlers.

(** The error stacks of the validations against [jobNewSchema] and
    [jobUpdateSchema], which are not among the sources. *)
Variable validate_new : Job.data.t -> list string.
Variable validate_update : object param -> list string.

Variable int4in : string -> option Z.
Variable pg : string -> list param -> tables -> result (list Job.job) * tables.

(** [if (!validator.valid) throw new BadRequestError(errs)]. *)
Definition check (errs : list string) : M unit :=
  if negb (Nat.eqb (length errs) 0)
  then throw (BadRequestError (Stacks errs))
  else ret tt.

Definition POST (req_body : Job.data.t) : M reply :=
  try_next (let* _ := check (validate_new req_body) in Job.create req_body)
           created.

Definition GET_id (req_params_id : string) : M reply :=
  try_next (Job.get int4in req_params_id) json_job.

Definition PATCH (req_params_id : string) (req_body : object param)
  : M reply :=
  try_next (let* _ := check (validate_update req_body) in
            Job.update pg req_params_id req_body)
           json_job.

Definition DELETE (req_params_id : string) : M reply :=
  try_next (Job.remove int4in req_params_id)
           (fun _ => json_deleted req_params_id).

End Handlers.

End JobsRoute.

(** ** The vocabulary of the specification *)

(** The specification calls the failure on an empty payload
    [EmptyPayloadError] and the one on a reversed range
    [InvalidRangeError]; the code throws a [BadRequestError] with these
    messages. *)
Definition EmptyPayloadError : error := BadRequestError (Text "No data").
Definition InvalidRangeError : error :=
  BadRequestError (Text "minEmployees cannot be greater than maxEmployees").

(** The placeholder with index [n]. *)
Definition placeholder (n : nat) : string := "$" +:+ pretty n.

(** The clause assigning placeholder [n] to column [c]. *)
Definition assignment (c : string) (n : nat) : string :=
  dquote +:+ c +:+ dquote +:+ "=" +:+ placeholder n.

(** The renaming the documentation of [Company.update] describes. *)
Definition renamed (k : string) : string :=
  if String.eqb "numEmployees" k then "num_employees"
  else if String.eqb "logoUrl" k then "logo_url"
  else k.

(** What [Company.update] sends to the store for a non-empty payload. *)
Definition update_statement (handle : string) (data : object param)
  : statement :=
  {| text := Company.update_sql (join ", " (cols data Company.jsToSql))
                                (placeholder (length data + 1));
     params := (Object_values data ++ [ PString handle ])%list |}.

(** The predicates a filter payload sets, in the order [findFiltered]
    looks at them: the left-hand side of the clause and the value bound. *)
Definition present (f : Company.filters.t) : list (string * param) :=
  (match Company.filters.name f with
   | Some n =>
       if truthy (VString n)
       then [ ("name ILIKE ", PString ("%" +:+ n +:+ "%")) ] else []
   | None => []
   end
   ++ match Company.filters.minEmployees f with
      | Some lo => [ ("num_employees >= ", PNumber lo) ]
      | None => []
      end
   ++ match Company.filters.maxEmployees f with
      | Some hi => [ ("num_employees <= ", PNumber hi) ]
      | None => []
      end)%list.

(** The jobs of the company with handle [h], in the order of the table,
    and the entry [get] makes of a job. *)
Definition jobs_of (h : string) (t : tables) : list jobs.row :=
  filter (fun j => h = jobs.company_handle j) (jobs t).

Definition entry_of (j : jobs.row) : Company.job_entry :=
  Company.json_build_object (Some j).

(** The row [Job.create] adds to table [jobs] for the data [d]. *)
Definition inserted (d : Job.data.t) (t : tables) : jobs.row :=
  {| jobs.id := jobs_id_seq t;
     jobs.title := Job.data.title d;
     jobs.salary := Job.data.salary d;
     jobs.equity := Job.data.equity d;
     jobs.company_handle := Job.data.companyHandle d |}.

(** Every id in table [jobs] was drawn from the sequence. *)
Definition ids_below_seq (t : tables) : Prop :=
  ∀ j, j ∈ jobs t → (jobs.id j < jobs_id_seq t)%Z.

(** A reading of the texts 1, 2 and 3 as integers, for the examples. *)
Definition sample_int4in (s : string) : option Z :=
  if String.eqb s "1" then Some 1%Z
  else if String.eqb s "2" then Some 2%Z
  else if String.eqb s "3" then Some 3%Z
  else None.

(** ** Sample stores *)

(** A store without rows, to which nothing was sent yet, and an engine
    that returns no row. *)
Definition empty_world : world :=
  {| store := {| companies := []; jobs := []; jobs_id_seq := 1 |};
     issued := [] |}.

Definition no_rows {R} (sql : string) (args : list param) (t : tables)
  : result (list R) * tables := (Return [], t).

(** The entry [json_build_object] makes of the NULLs on the job side of an
    unmatched company. *)
Definition null_entry : Company.job_entry :=
  {| Company.id := None; Company.title := None;
     Company.salary := None; Company.equity := None |}.

Definition acme : companies.row :=
  {| companies.handle := "acme";
     companies.name := "Acme";
     companies.description := "Anvils";
     companies.num_employees := Some 10%Z;
     companies.logo_url := None |}.

Definition acme_world : world :=
  {| store := {| companies := [ acme ]; jobs := []; jobs_id_seq := 1 |};
     issued := [] |}.

Definition smith : Job.data.t :=
  {| Job.data.title := "Smith";
     Job.data.salary := Some 100%Z;
     Job.data.equity := Some 0%Q;
     Job.data.companyHandle := "acme" |}.

Definition clerk : jobs.row :=
  {| jobs.id := 1; jobs.title := "Clerk"; jobs.salary := Some 100%Z;
     jobs.equity := Some 0%Q; jobs.company_handle := "acme" |}.

Definition editor : jobs.row :=
  {| jobs.id := 2; jobs.title := "Editor"; jobs.salary := Some 200%Z;
     jobs.equity := Some (1 # 2)%Q; jobs.company_handle := "acme" |}.

Definition intern : jobs.row :=
  {| jobs.id := 3; jobs.title := "Intern"; jobs.salary := None;
     jobs.equity := None; jobs.company_handle := "acme" |}.

Definition jobs_world : world :=
  {| store := {| companies := [ acme ];
                 jobs := [ editor; clerk; intern ];
                 jobs_id_seq := 4 |};
     issued := [] |}.

Definition bolt : companies.row :=
  {| companies.handle := "bolt";
     companies.name := "Bolt";
     companies.description := "Fasteners";
     companies.num_employees := None;
     companies.logo_url := Some "/logos/bolt.png" |}.

Definition companies_world : world :=
  {| store := {| companies := [ bolt; acme ];
                 jobs := [ editor; clerk; intern ];
                 jobs_id_seq := 4 |};
     issued := [] |}.

(** A store with jobs 2 and 3 and no job 1. *)
Definition editor_intern_world : world :=
  {| store := {| companies := [ acme ];
                 jobs := [ editor; intern ];
                 jobs_id_seq := 4 |};
     issued := [] |}.

(** The filter payload holding only the name [ab], and the statement
    [findFiltered] sends for it. *)
Definition name_ab : Company.filters.t :=
  {| Company.filters.name := Some "ab";
     Company.filters.minEmployees := None;
     Company.filters.maxEmployees := None |}.

Definition name_ab_sql : string :=
  "SELECT " +:+ Company.columns
  +:+ " FROM companies WHEREname ILIKE $1 ORDER BY name".

(** The statement [Company.update] sends for a payload whose only key is
    [k], when the column emitted for it is [c]. *)
Definition update_one_sql (c : string) : string :=
  "UPDATE companies SET " +:+ assignment c 1
  +:+ " WHERE handle = $2 RETURNING " +:+ Company.columns.

(** * Properties *)

(** ** The partial-update fragment builder *)

Section builder.

Context {A : Type}.
Implicit Types (P : object A) (T : object value).

Lemma col_assignment T i k : col T i k = assignment (column T k) (i + 1).
Proof. reflexivity. Qed.

Lemma length_cols P T : length (cols P T) = length P.
Proof. unfold cols, Object_keys. by rewrite length_imap, length_fmap. Qed.

Lemma lookup_cols P T i k v :
  P !! i = Some (k, v) → cols P T !! i = Some (assignment (column T k) (i + 1)).
Proof.
  intros HP. unfold cols, Object_keys.
  by rewrite list_lookup_imap, list_lookup_fmap, HP.
Qed.

Lemma lookup_values P i k v :
  P !! i = Some (k, v) → Object_values P !! i = Some v.
Proof.
  intros HP. unfold Object_values. by rewrite list_lookup_fmap, HP.
Qed.

Lemma cols_zip P T :
  cols P T
  = zip_with (fun k n => assignment (column T k) n)
             (Object_keys P) (seq 1 (length P)).
Proof.
  apply list_eq; intros i. unfold cols.
  rewrite list_lookup_imap, lookup_zip_with.
  destruct (Object_keys P !! i) as [k|] eqn:Hk; simpl; [|done].
  assert (i < length P) as Hi.
  { apply lookup_lt_Some in Hk. unfold Object_keys in Hk.
    by rewrite length_fmap in Hk. }
  rewrite lookup_seq_lt by done. simpl.
  by rewrite col_assignment, Nat.add_comm.
Qed.

Lemma sqlForPartialUpdate_nonempty P T :
  P ≠ [] →
  sqlForPartialUpdate P T
  = Return {| setCols := join ", " (cols P T); values := Object_values P |}.
Proof. destruct P; [done|]. reflexivity. Qed.

End builder.

Lemma placeholder_inj : Inj (=) (=) placeholder.
Proof.
  intros m n H. unfold placeholder in H. simpl in H.
  injection H as H. by apply (inj pretty).
Qed.

(** C1: on a non-empty payload the builder returns a fragment with one
    clause and one value per payload key; clause [i] (counting from 0) is
    the assignment of placeholder [i + 1] to the column of the [i]-th key
    and value [i] is the value of the [i]-th key, so that the placeholders
    used are [1 .. len P], in order and without repetition, and there are
    as many clauses as values. *)
Theorem sqlForPartialUpdate_clauses_values
    {A : Type} (P : object A) (T : object value) :
  P ≠ [] →
  ∃ r, sqlForPartialUpdate P T = Return r
     ∧ setCols r = join ", " (cols P T)
     ∧ length (cols P T) = length P
     ∧ length (values r) = length P
     ∧ length (cols P T) = length (values r)
     ∧ cols P T = zip_with (fun k n => assignment (column T k) n)
                           (Object_keys P) (seq 1 (length P))
     ∧ NoDup (placeholder <$> seq 1 (length P))
     ∧ ∀ i k v, P !! i = Some (k, v) →
         cols P T !! i = Some (assignment (column T k) (i + 1))
         ∧ values r !! i = Some v.
Proof.
  intros HP. eexists. split; [by apply sqlForPartialUpdate_nonempty|]. simpl.
  assert (length (Object_values P) = length P) as Hv.
  { unfold Object_values. by rewrite length_fmap. }
  repeat split.
  - apply length_cols.
  - done.
  - by rewrite length_cols.
  - apply cols_zip.
  - apply (NoDup_fmap_2 _), NoDup_seq.
  - by eapply lookup_cols.
  - by eapply lookup_values.
Qed.

Lemma sqlForPartialUpdate_clauses_values_witness :
  ∃ r, sqlForPartialUpdate
         [ ("firstName", PString "John"); ("lastName", PString "Doe");
           ("age", PNumber 30) ]
         [ ("firstName", VString "first_name") ] = Return r
     ∧ values r = [ PString "John"; PString "Doe"; PNumber 30 ]
     ∧ setCols r = dquote +:+ "first_name" +:+ dquote +:+ "=$1, " +:+ dquote
                   +:+ "lastName" +:+ dquote +:+ "=$2, " +:+ dquote +:+ "age"
                   +:+ dquote +:+ "=$3".
Proof.
  destruct (sqlForPartialUpdate_clauses_values
              [ ("firstName", PString "John"); ("lastName", PString "Doe");
                ("age", PNumber 30) ]
              [ ("firstName", VString "first_name") ])
    as (r & Hr & Hs & _); [done|].
  exists r. split; [exact Hr|].
  vm_compute in Hr. injection Hr as <-. split; reflexivity.
Defined.

(** C6: whatever the translation table, the builder fails on the empty
    payload with the error the specification names [EmptyPayloadError], and
    gives no fragment; an update of a company with the empty payload fails
    the same way and leaves the store and the list of issued statements as
    they were. *)
Theorem sqlForPartialUpdate_empty_payload :
  (∀ (A : Type) (T : object value),
     sqlForPartialUpdate (A := A) [] T = Throw EmptyPayloadError)
  ∧ (∀ pg handle w,
       Company.update pg handle [] w = (Throw EmptyPayloadError, w)).
Proof. split; reflexivity. Qed.

(** ** The column of a key *)

Lemma column_own_truthy T k v :
  own T k = Some v → truthy v = true → column T k = ToString v.
Proof.
  intros Hk Hv. unfold column, get, or. by rewrite Hk, Hv.
Qed.

Lemma column_own_falsy T k v :
  own T k = Some v → truthy v = false → column T k = k.
Proof.
  intros Hk Hv. unfold column, get, or. by rewrite Hk, Hv.
Qed.

Lemma own_Forall {A} (Q : A → Prop) (o : object A) k v :
  Forall (fun kv => Q kv.2) o → own o k = Some v → Q v.
Proof.
  induction 1 as [|[k' v'] o HQ _ IH]; simpl; [done|].
  destruct (String.eqb k' k); [|done]. by intros [= <-].
Qed.

Lemma inherited_truthy k v : own Object_prototype k = Some v → truthy v = true.
Proof.
  apply (own_Forall (fun v => truthy v = true)).
  unfold Object_prototype. repeat constructor.
Qed.

Lemma column_inherited T k v :
  own T k = None → own Object_prototype k = Some v → column T k = ToString v.
Proof.
  intros Hk Hp. unfold column, get, or. rewrite Hk, Hp. simpl.
  by rewrite (inherited_truthy k v).
Qed.

Lemma column_missing T k :
  own T k = None → own Object_prototype k = None → column T k = k.
Proof.
  intros Hk Hp. unfold column, get, or. by rewrite Hk, Hp.
Qed.

(** C7 as stated fails: a key present in the table with the empty string as
    its column is emitted under its own name, not under [T[key]]. *)
Lemma column_present_counterexample :
  ¬ ∀ (T : object value) (k s : string),
      own T k = Some (VString s) → column T k = s.
Proof.
  intros H. by specialize (H [ ("a", VString EmptyString) ] "a" EmptyString eq_refl).
Qed.

(** The other half fails as well: a key absent from the table that names a
    property of [Object.prototype] is emitted as that property prints. *)
Lemma column_absent_inherited :
  own (A := value) [] "toString" = None
  ∧ column [] "toString" = "function toString() { [native code] }".
Proof. split; reflexivity. Qed.

(** C7, amended: in the clause the builder emits for the [i]-th key [k] of
    the payload, the column is [T[k]] when the table has an entry for [k]
    that is a non-empty string, and [k] itself when the table has an entry
    for [k] that is the empty string or another falsy value, or when [k] is
    neither in the table nor the name of a property of
    [Object.prototype]. *)
Theorem column_of_key {A : Type} (P : object A) (T : object value) i k x :
  P !! i = Some (k, x) →
  (∀ s, own T k = Some (VString s) → s ≠ EmptyString →
        cols P T !! i = Some (assignment s (i + 1)))
  ∧ (∀ v, own T k = Some v → truthy v = false →
          cols P T !! i = Some (assignment k (i + 1)))
  ∧ (own T k = None → own Object_prototype k = None →
     cols P T !! i = Some (assignment k (i + 1))).
Proof.
  intros HP. repeat split.
  - intros s Hs Hne. erewrite lookup_cols by done.
    rewrite (column_own_truthy T k (VString s)); [done..|].
    by destruct s.
  - intros v Hv Hf. erewrite lookup_cols by done.
    by erewrite column_own_falsy.
  - intros Hk Hp. erewrite lookup_cols by done.
    by rewrite column_missing.
Qed.

Lemma column_of_key_witness :
  cols [ ("firstName", PString "John"); ("lastName", PString "Doe") ]
       [ ("firstName", VString "first_name") ] !! 0
  = Some (assignment "first_name" 1)
  ∧ cols [ ("firstName", PString "John"); ("lastName", PString "Doe") ]
         [ ("firstName", VString "first_name") ] !! 1
    = Some (assignment "lastName" 2).
Proof.
  split.
  - apply (column_of_key
             [ ("firstName", PString "John"); ("lastName", PString "Doe") ]
             [ ("firstName", VString "first_name") ] 0 "firstName"
             (PString "John") eq_refl); [reflexivity | discriminate].
  - apply (column_of_key
             [ ("firstName", PString "John"); ("lastName", PString "Doe") ]
             [ ("firstName", VString "first_name") ] 1 "lastName"
             (PString "Doe") eq_refl); reflexivity.
Defined.

(** ** Updating a company *)

Lemma column_renamed k :
  own Object_prototype k = None → column Company.jsToSql k = renamed k.
Proof.
  intros Hp. unfold column, get, renamed, Company.jsToSql. cbn [own].
  destruct (String.eqb "numEmployees" k); [done|].
  destruct (String.eqb "logoUrl" k); [done|].
  by rewrite Hp.
Qed.

Lemma update_issued pg handle data w :
  data ≠ [] →
  issued (Company.update pg handle data w).2
  = (issued w ++ [ update_statement handle data ])%list.
Proof.
  intros Hd. unfold Company.update, bind, lift.
  change (call "sqlForPartialUpdate" Company.sqlForPartialUpdate data
            Company.jsToSql)
    with (sqlForPartialUpdate data Company.jsToSql).
  rewrite sqlForPartialUpdate_nonempty by done.
  cbn [setCols values]. unfold query.
  assert (length (Object_values data) = length data) as ->.
  { unfold Object_values. by rewrite length_fmap. }
  destruct (pg _ _ _) as [[rows|e] t]; [|done].
  by destruct (rows !! 0).
Qed.

(** A payload key that is not the name of a property of
    [Object.prototype] is emitted as the column itself, [numEmployees] and
    [logoUrl] apart, which are renamed. *)
Lemma cols_own_key (data : object param) i k v :
  data !! i = Some (k, v) →
  own Object_prototype k = None →
  cols data Company.jsToSql !! i = Some (assignment (renamed k) (i + 1)).
Proof.
  intros Hi Hp. erewrite lookup_cols by done. by rewrite column_renamed.
Qed.

(** The key [handle] is accepted like any other: the statement sets the
    column [handle] from placeholder 1. *)
Lemma update_handle_key pg handle v w :
  issued (Company.update pg handle [ ("handle", v) ] w).2
  = (issued w ++ [ {| text := update_one_sql "handle";
                      params := [ v; PString handle ] |} ])%list.
Proof. by rewrite update_issued. Qed.

(** C10: for the payload whose only key is [toString], the one statement
    [Company.update] sends sets a column named after the printed built-in
    function the translation table inherits from [Object.prototype], and
    not the column [toString]: the key is accepted, but it is not emitted
    verbatim, although it is neither [numEmployees] nor [logoUrl]. *)
Theorem update_inherited_key pg handle v w :
  issued (Company.update pg handle [ ("toString", v) ] w).2
  = (issued w
     ++ [ {| text := update_one_sql "function toString() { [native code] }";
             params := [ v; PString handle ] |} ])%list
  ∧ update_one_sql "function toString() { [native code] }"
    ≠ update_one_sql (renamed "toString")
  ∧ renamed "toString" = "toString".
Proof.
  split; [by rewrite update_issued|]. split; [|done].
  intros Heq. vm_compute in Heq. discriminate Heq.
Qed.

(** ** The filtered search of companies *)

Lemma findFiltered_issued pg f w :
  (Company.defined (Company.filters.minEmployees f)
   && Company.defined (Company.filters.maxEmployees f)
   && Company.gt (Company.filters.minEmployees f)
                 (Company.filters.maxEmployees f)) = false →
  issued (Company.findFiltered pg f w).2
  = (issued w ++ [ {| text := Company.findFiltered_sql f;
                      params := (Company.predicates f).2 |} ])%list.
Proof.
  intros Hc. unfold Company.findFiltered. rewrite Hc. unfold query.
  by destruct (pg _ _ _).
Qed.

(** C8: when both bounds are present and the minimum exceeds the maximum,
    the filtered search of companies fails with the error the specification
    names [InvalidRangeError]; the store and the list of issued statements
    are left as they were, so no clause reaches the store and no statement
    is issued. *)
Theorem findFiltered_reversed_range pg f (lo hi : Z) w :
  Company.filters.minEmployees f = Some lo →
  Company.filters.maxEmployees f = Some hi →
  (lo > hi)%Z →
  Company.findFiltered pg f w = (Throw InvalidRangeError, w).
Proof.
  intros Hlo Hhi Hgt. unfold Company.findFiltered. rewrite Hlo, Hhi. simpl.
  by assert ((hi <? lo)%Z = true) as -> by lia.
Qed.

Lemma findFiltered_reversed_range_witness :
  Company.findFiltered no_rows
    {| Company.filters.name := None;
       Company.filters.minEmployees := Some 10%Z;
       Company.filters.maxEmployees := Some 5%Z |} empty_world
  = (Throw InvalidRangeError, empty_world).
Proof.
  apply (findFiltered_reversed_range no_rows _ 10 5 empty_world);
    [reflexivity | reflexivity | lia].
Defined.

(** A filter payload holding only a non-empty name fills the arrays with
    one clause, the case-insensitive pattern match [name ILIKE $1], and one
    value, the name between two wildcard markers. *)
Lemma predicates_name_only (n : string) :
  n ≠ EmptyString →
  Company.predicates {| Company.filters.name := Some n;
                        Company.filters.minEmployees := None;
                        Company.filters.maxEmployees := None |}
  = ([ "name ILIKE $1" ], [ PString ("%" +:+ n +:+ "%") ]).
Proof.
  intros Hn. unfold Company.predicates. cbn [Company.filters.name
    Company.filters.minEmployees Company.filters.maxEmployees].
  assert (truthy (VString n) = true) as -> by by destruct n.
  reflexivity.
Qed.

(** C9: for the filter payload holding only the name [ab],
    [findFiltered] sends exactly one statement and binds exactly one
    value, [%ab%]; the arrays it fills hold the one clause
    [name ILIKE $1]; but the statement sent reads
    [... FROM companies WHEREname ILIKE $1 ORDER BY name]: the clause is
    glued to the keyword, [WHERE] is not a word of the statement, and the
    store is not asked for a match on the name. *)
Theorem findFiltered_name_ab pg w :
  Company.predicates name_ab = ([ "name ILIKE $1" ], [ PString "%ab%" ])
  ∧ Company.findFiltered pg name_ab w
    = ((pg name_ab_sql [ PString "%ab%" ] (store w)).1,
       {| store := (pg name_ab_sql [ PString "%ab%" ] (store w)).2;
          issued := (issued w ++ [ {| text := name_ab_sql;
                                      params := [ PString "%ab%" ] |} ])
                      %list |})
  ∧ ("WHERE" ∉ String.words name_ab_sql)
  ∧ drop 10 (String.words name_ab_sql)
    = [ "FROM"; "companies"; "WHEREname"; "ILIKE"; "$1"; "ORDER"; "BY";
        "name" ].
Proof.
  split; [reflexivity|]. split.
  - unfold Company.findFiltered, query.
    change (Company.findFiltered_sql name_ab) with name_ab_sql.
    change (Company.predicates name_ab).2 with [ PString "%ab%" ].
    cbn [Company.defined Company.gt Company.filters.minEmployees
         Company.filters.maxEmployees name_ab andb].
    by destruct (pg _ _ _).
  - split; [apply (bool_decide_unpack _); vm_compute; exact I|].
    vm_compute. reflexivity.
Qed.

(** Without a predicate the where-clause and the list of bound values are
    empty; a name that is the empty string counts as absent. *)
Lemma findFiltered_no_predicate f :
  (Company.filters.name f = None ∨ Company.filters.name f = Some EmptyString) →
  Company.filters.minEmployees f = None →
  Company.filters.maxEmployees f = None →
  Company.predicates f = ([], [])
  ∧ Company.whereClause (Company.predicates f).1 = EmptyString
  ∧ Company.findFiltered_sql f
    = "SELECT " +:+ Company.columns +:+ " FROM companies  ORDER BY name".
Proof.
  intros Hn Hlo Hhi.
  assert (Company.predicates f = ([], [])) as Hp.
  { unfold Company.predicates. rewrite Hlo, Hhi. by destruct Hn as [-> | ->]. }
  unfold Company.findFiltered_sql. by rewrite Hp.
Qed.

(** With a predicate, the where-clause is the keyword [WHERE] immediately
    followed by the first clause, which starts with a column name: no blank
    separates them. *)
Lemma findFiltered_where_glued f :
  (Company.predicates f).1 ≠ [] →
  ∃ rest, Company.whereClause (Company.predicates f).1 = "WHEREn" +:+ rest.
Proof.
  destruct f as [[n|] [lo|] [hi|]]; unfold Company.predicates;
    cbn [Company.filters.name Company.filters.minEmployees
         Company.filters.maxEmployees];
    try destruct (truthy (VString n)); intros Hne;
    try (by destruct Hne); eexists; reflexivity.
Qed.

(** C4: for the filter payload holding the name [ab], the where-clause the
    code builds is [WHEREname ILIKE $1], and the statement it sends reads
    [... FROM companies WHEREname ILIKE $1 ORDER BY name]: the keyword
    [WHERE] is not among the words of the statement, the clause is glued to
    it. *)
Theorem findFiltered_where_keyword :
  Company.whereClause
    (Company.predicates {| Company.filters.name := Some "ab";
                           Company.filters.minEmployees := None;
                           Company.filters.maxEmployees := None |}).1
  = "WHEREname ILIKE $1"
  ∧ issued (Company.findFiltered no_rows
              {| Company.filters.name := Some "ab";
                 Company.filters.minEmployees := None;
                 Company.filters.maxEmployees := None |} empty_world).2
    = [ {| text := "SELECT " +:+ Company.columns
                   +:+ " FROM companies WHEREname ILIKE $1 ORDER BY name";
           params := [ PString "%ab%" ] |} ]
  ∧ ("WHERE" ∉ String.words
                 (Company.findFiltered_sql
                    {| Company.filters.name := Some "ab";
                       Company.filters.minEmployees := None;
                       Company.filters.maxEmployees := None |}))
  ∧ ("WHEREname" ∈ String.words
                     (Company.findFiltered_sql
                        {| Company.filters.name := Some "ab";
                           Company.filters.minEmployees := None;
                           Company.filters.maxEmployees := None |})).
Proof.
  split; [reflexivity|]. split; [reflexivity|].
  split; apply (bool_decide_unpack _); vm_compute; exact I.
Qed.

(** ** Reading a company with its jobs *)

Section get.

Implicit Types (cs : list companies.row) (js : list jobs.row).

Lemma filter_none {X} (Q : X → Prop) `{!∀ x, Decision (Q x)} (l : list X) :
  (∀ x, x ∈ l → ¬ Q x) → filter Q l = [].
Proof.
  induction l as [|x l IH]; [done|]. intros Hl.
  rewrite filter_cons_False by (apply Hl; left).
  apply IH. intros y Hy. apply Hl. by right.
Qed.

Lemma filter_left_join_other cs js h :
  h ∉ companies.handle <$> cs →
  filter (fun r => companies.handle r.1 = h) (Company.left_join cs js) = [].
Proof.
  unfold Company.left_join.
  induction cs as [|c cs IH]; [done|]. intros Hh.
  rewrite fmap_cons, not_elem_of_cons in Hh. destruct Hh as [Hc Hcs].
  rewrite bind_cons, filter_app, IH, app_nil_r by done.
  destruct (filter _ js) as [|j m]; [by rewrite filter_cons_False by done|].
  apply filter_none.
  intros r [j' [-> _]]%list_elem_of_fmap. simpl. congruence.
Qed.

Lemma filter_left_join_unmatched cs js c :
  NoDup (companies.handle <$> cs) →
  c ∈ cs →
  (∀ j, j ∈ js → jobs.company_handle j ≠ companies.handle c) →
  filter (fun r => companies.handle r.1 = companies.handle c)
         (Company.left_join cs js)
  = [ (c, None) ].
Proof.
  intros Hnd Hc Hjs. unfold Company.left_join.
  induction cs as [|c' cs IH]; [by apply elem_of_nil in Hc|].
  rewrite fmap_cons, NoDup_cons in Hnd. destruct Hnd as [Hc' Hnd].
  rewrite bind_cons, filter_app.
  apply elem_of_cons in Hc as [<- | Hc].
  - fold (Company.left_join cs js).
    rewrite filter_left_join_other, app_nil_r by done.
    assert (filter (fun j => companies.handle c = jobs.company_handle j) js
            = []) as ->.
    { apply filter_none. intros j Hj Heq. by apply (Hjs j Hj). }
    by rewrite filter_cons_True by done.
  - rewrite IH by done.
    assert (companies.handle c' ≠ companies.handle c) as Hne.
    { intros Heq. apply Hc'. rewrite Heq.
      by apply list_elem_of_fmap_2. }
    destruct (filter _ js) as [|j m].
    + by rewrite filter_cons_False by done.
    + assert (filter (fun r : companies.row * option jobs.row =>
                        companies.handle r.1 = companies.handle c)
                     ((fun j0 => (c', Some j0)) <$> j :: m) = []) as ->;
        [|done].
      apply filter_none.
      by intros r [j' [-> _]]%list_elem_of_fmap.
Qed.

Lemma group_by_handle_unmatched c :
  Company.group_by_handle [ (c, None) ]
  = [ {| Company.the_company := Company.of_row c;
         Company.jobs := Some [ null_entry ] |} ].
Proof.
  unfold Company.group_by_handle. simpl.
  rewrite filter_cons_True by done.
  by rewrite filter_nil.
Qed.

(** In a store where handles are unique, reading a company that no job
    refers to gives a [jobs] attribute of one entry, all of whose fields
    are null. *)
Lemma get_unmatched c w :
  NoDup (companies.handle <$> companies (store w)) →
  c ∈ companies (store w) →
  (∀ j, j ∈ jobs (store w) → jobs.company_handle j ≠ companies.handle c) →
  (Company.get (companies.handle c) w).1
  = Return {| Company.the_company := Company.of_row c;
              Company.jobs := Some [ null_entry ] |}.
Proof.
  intros Hnd Hc Hjs. unfold Company.get, bind, query, Company.select_with_jobs.
  simpl. rewrite filter_left_join_unmatched by done.
  by rewrite group_by_handle_unmatched.
Qed.

End get.

(** C5: in a store holding the company [acme] and no job, [get] on [acme]
    returns a [jobs] attribute that is a list of one entry whose fields
    are all null, not the empty list; once one job has been created for
    [acme], [get] returns exactly one entry, that job. *)
Theorem get_jobs_of_jobless_company :
  (∃ w, Company.get "acme" acme_world
        = (Return {| Company.the_company := Company.of_row acme;
                     Company.jobs := Some [ null_entry ] |}, w))
  ∧ (∀ c w, Company.get "acme" acme_world = (Return c, w) →
            Company.jobs c ≠ Some [])
  ∧ (∃ w,
       Company.get "acme" (Job.create smith acme_world).2
       = (Return {| Company.the_company := Company.of_row acme;
                    Company.jobs :=
                      Some [ {| Company.id := Some 1%Z;
                                Company.title := Some "Smith";
                                Company.salary := Some 100%Z;
                                Company.equity := Some 0%Q |} ] |}, w)).
Proof.
  split; [|split].
  - eexists. vm_compute. reflexivity.
  - intros c w. vm_compute. by intros [= <- _].
  - eexists. vm_compute. reflexivity.
Qed.

(** ** Updating a job *)

(** With the name bound to the builder itself, [update] would still stop
    before the store: it reads the undeclared identifier [querySql]. *)
Lemma update_with_builder pg id data w :
  ∃ e, Job.update_with pg (Function sqlForPartialUpdate) id data w
       = (Throw e, w)
     ∧ (e = EmptyPayloadError ∨ e = ReferenceError "querySql is not defined").
Proof.
  unfold Job.update_with, bind, lift, call.
  destruct data as [|kv data]; [by eexists; split; [reflexivity|left]|].
  rewrite sqlForPartialUpdate_nonempty by done.
  eexists; split; [reflexivity|by right].
Qed.

(** C3: for every id, payload and store, [Job.update] throws a
    [TypeError], because the name [sqlForPartialUpdate] is bound to the
    exports object of the helper module and not to the builder; no fragment
    is built, no statement is issued, no job is returned and the failure is
    not a [NotFoundError]. *)
Theorem Job_update_throws_TypeError pg id (data : object param) w :
  Job.update pg id data w
  = (Throw (TypeError "sqlForPartialUpdate is not a function"), w).
Proof. reflexivity. Qed.

(** ** Searching jobs *)

Section search.

Variable number : Type.
Variable ToNumber : string → number.
Variable validate : object (JobsRoute.qvalue number) → list string.
Variable collate : string → string → bool.

(** [findAll] returns every job of the store. *)
Lemma findAll_all w :
  ∃ found,
    Job.findAll collate w
    = (Return found,
       {| store := store w;
          issued := (issued w ++ [ {| text := Job.findAll_sql;
                                      params := [] |} ])%list |})
    ∧ found ≡ₚ Job.of_row <$> jobs (store w).
Proof.
  eexists. split; [reflexivity|].
  by rewrite merge_sort_Permutation.
Qed.

(** Whatever the query, the handler answers with a validation error or
    with what [findAll] returns: the filters reach no statement. *)
Lemma GET_answer req_query w :
  (∃ errors,
     JobsRoute.GET number ToNumber validate collate req_query w
     = (Return (JobsRoute.next (BadRequestError (Stacks errors))), w))
  ∨ (∃ found,
       Job.findAll collate w = (Return found, (Job.findAll collate w).2)
       ∧ JobsRoute.GET number ToNumber validate collate req_query w
         = (Return (JobsRoute.res_json found), (Job.findAll collate w).2)).
Proof.
  unfold JobsRoute.GET.
  destruct (negb _); [left; by eexists|right].
  destruct (findAll_all w) as (found & Hfound & _).
  exists found. by rewrite Hfound.
Qed.

End search.

(** C2: for the request [GET /jobs?hasEquity=true], accepted by the
    validation, on a store holding a job with equity 0 and a job without
    equity besides a job with equity 1/2, the handler answers with all
    three jobs; the single statement it issues carries no condition and no
    bound value. *)
Theorem GET_hasEquity_returns_every_job :
  JobsRoute.GET Z (fun _ => 0%Z) (fun _ => []) String.leb
    [ ("hasEquity", "true") ] jobs_world
  = (Return (JobsRoute.res_json
               [ Job.of_row clerk; Job.of_row editor; Job.of_row intern ]),
     {| store := store jobs_world;
        issued := [ {| text := "SELECT " +:+ Job.columns
                               +:+ " FROM jobs ORDER BY title";
                       params := [] |} ] |}).
Proof. vm_compute. reflexivity. Qed.

(** * Further properties of the access layer *)

(** ** [Company.update] *)

Lemma length_Object_keys {A} (P : object A) : length (Object_keys P) = length P.
Proof. unfold Object_keys. by rewrite length_fmap. Qed.

Lemma length_Object_values {A} (P : object A) :
  length (Object_values P) = length P.
Proof. unfold Object_values. by rewrite length_fmap. Qed.

(** X1: the text of the [UPDATE] that [Company.update] sends is fixed by
    the keys of the payload: two non-empty payloads with the same keys
    give the same text, whatever their values and whatever the handle;
    values and handle travel only as arguments. *)
Theorem update_text_from_keys pg handle handle' (data data' : object param)
    w w' :
  data ≠ [] →
  Object_keys data = Object_keys data' →
  ∃ s s',
    issued (Company.update pg handle data w).2 = (issued w ++ [ s ])%list
    ∧ issued (Company.update pg handle' data' w').2
      = (issued w' ++ [ s' ])%list
    ∧ text s = text s'
    ∧ params s = (Object_values data ++ [ PString handle ])%list
    ∧ params s' = (Object_values data' ++ [ PString handle' ])%list.
Proof.
  intros Hd Hk.
  assert (data' ≠ []) as Hd'.
  { intros ->. destruct data; [done|discriminate]. }
  exists (update_statement handle data), (update_statement handle' data').
  split; [by apply update_issued|]. split; [by apply update_issued|].
  split; [|done]. unfold update_statement, cols. cbn [text].
  by rewrite <- (length_Object_keys data), <- (length_Object_keys data'), Hk.
Qed.

Lemma update_text_from_keys_witness :
  ∃ s s',
    issued (Company.update no_rows "acme" [ ("name", PString "Acme") ]
              empty_world).2 = [ s ]
    ∧ issued (Company.update no_rows "apex" [ ("name", PString "x'; --") ]
                empty_world).2 = [ s' ]
    ∧ text s = text s'.
Proof.
  destruct (update_text_from_keys no_rows "acme" "apex"
              [ ("name", PString "Acme") ] [ ("name", PString "x'; --") ]
              empty_world empty_world ltac:(discriminate) eq_refl)
    as (s & s' & Hs & Hs' & Ht & _).
  by exists s, s'.
Defined.

(** X2: in the statement [Company.update] sends for a non-empty payload
    of [n] keys, there are [n + 1] arguments; argument [i] is the value of
    the [i]-th key, the last one is the handle, and the placeholder of the
    [WHERE] clause, number [n + 1], is none of the placeholders [1 .. n]
    of the [SET] list. *)
Theorem update_arguments pg handle (data : object param) w :
  data ≠ [] →
  ∃ s,
    issued (Company.update pg handle data w).2 = (issued w ++ [ s ])%list
    ∧ text s = Company.update_sql (join ", " (cols data Company.jsToSql))
                                  (placeholder (length data + 1))
    ∧ length (params s) = length data + 1
    ∧ (∀ i k v, data !! i = Some (k, v) → params s !! i = Some v)
    ∧ params s !! length data = Some (PString handle)
    ∧ placeholder (length data + 1) ∉ placeholder <$> seq 1 (length data).
Proof.
  intros Hd. exists (update_statement handle data).
  split; [by apply update_issued|]. split; [done|].
  unfold update_statement. cbn [params]. repeat split.
  - by rewrite length_app, length_Object_values.
  - intros i k v Hi. rewrite lookup_app_l.
    + by eapply lookup_values.
    + rewrite length_Object_values. by eapply lookup_lt_Some.
  - rewrite lookup_app_r; rewrite length_Object_values; [|done].
    by rewrite Nat.sub_diag.
  - intros [m [Hm Hin]]%list_elem_of_fmap.
    apply placeholder_inj in Hm. apply elem_of_seq in Hin. lia.
Qed.

Lemma update_arguments_witness :
  ∃ s,
    issued (Company.update no_rows "acme"
              [ ("name", PString "Acme"); ("numEmployees", PNumber 50) ]
              empty_world).2 = [ s ]
    ∧ params s = [ PString "Acme"; PNumber 50; PString "acme" ].
Proof.
  destruct (update_arguments no_rows "acme"
              [ ("name", PString "Acme"); ("numEmployees", PNumber 50) ]
              empty_world ltac:(discriminate))
    as (s & Hs & _).
  exists s. split; [exact Hs|].
  vm_compute in Hs. by injection Hs as <-.
Defined.

(** X3: for a non-empty payload, [Company.update] returns the first row
    the store returns for its statement, fails with [NotFoundError]
    exactly when the store returns no row, and lets a failure of the store
    through unchanged. *)
Theorem update_outcome pg handle (data : object param) w :
  data ≠ [] →
  (Company.update pg handle data w).1
  = match (pg (text (update_statement handle data))
              (params (update_statement handle data)) (store w)).1 with
    | Return [] => Throw (NotFoundError (Text ("No company: " +:+ handle)))
    | Return (company :: _) => Return company
    | Throw e => Throw e
    end.
Proof.
  intros Hd. unfold Company.update, bind, lift.
  change (call "sqlForPartialUpdate" Company.sqlForPartialUpdate data
            Company.jsToSql)
    with (sqlForPartialUpdate data Company.jsToSql).
  rewrite sqlForPartialUpdate_nonempty by done.
  cbn [setCols values]. unfold query, update_statement. cbn [text params].
  rewrite length_Object_values.
  destruct (pg _ _ _) as [[rows|e] t]; [|done].
  by destruct rows.
Qed.

Lemma update_outcome_witness :
  (Company.update no_rows "acme" [ ("name", PString "Acme") ] empty_world).1
  = Throw (NotFoundError (Text "No company: acme")).
Proof.
  exact (update_outcome no_rows "acme" [ ("name", PString "Acme") ]
           empty_world ltac:(discriminate)).
Defined.

(** ** [Company.findFiltered] *)

Lemma predicates_present f :
  Company.predicates f
  = (imap (fun i p => p.1 +:+ placeholder (i + 1)) (present f),
     (present f).*2).
Proof.
  destruct f as [[n|] [lo|] [hi|]]; unfold Company.predicates, present;
    cbn [Company.filters.name Company.filters.minEmployees
         Company.filters.maxEmployees];
    try destruct (truthy (VString n)); reflexivity.
Qed.

(** X4: for every filter payload the clauses and the bound values of
    [findFiltered] come from the predicates that are set, taken in the
    order name, minimum, maximum: clause [i] is the left-hand side of the
    [i]-th of them followed by placeholder [i + 1] and value [i] is its
    value, so there are as many clauses as values, and at most three. *)
Theorem predicates_numbered f :
  (Company.predicates f).1
  = imap (fun i p => p.1 +:+ placeholder (i + 1)) (present f)
  ∧ (Company.predicates f).2 = (present f).*2
  ∧ length (Company.predicates f).1 = length (Company.predicates f).2
  ∧ (length (Company.predicates f).1 ≤ 3)%nat.
Proof.
  rewrite predicates_present. cbn [fst snd].
  rewrite length_imap, length_fmap. repeat split.
  destruct f as [[n|] [lo|] [hi|]]; unfold present;
    cbn [Company.filters.name Company.filters.minEmployees
         Company.filters.maxEmployees];
    try destruct (truthy (VString n)); simpl; lia.
Qed.

(** X5: when the range is not reversed (a bound is missing, or the minimum
    is at most the maximum, equal bounds included), [findFiltered] sends
    exactly one statement, with the values of the predicates that are set
    as arguments, and returns what the store returns for it, rows or
    failure. *)
Theorem findFiltered_sends_one_statement pg f w :
  (∀ lo hi, Company.filters.minEmployees f = Some lo →
            Company.filters.maxEmployees f = Some hi → (lo ≤ hi)%Z) →
  Company.findFiltered pg f w
  = ((pg (Company.findFiltered_sql f) (present f).*2 (store w)).1,
     {| store := (pg (Company.findFiltered_sql f) (present f).*2 (store w)).2;
        issued := (issued w ++ [ {| text := Company.findFiltered_sql f;
                                    params := (present f).*2 |} ])%list |}).
Proof.
  intros Hr. unfold Company.findFiltered.
  assert (Company.defined (Company.filters.minEmployees f)
          && Company.defined (Company.filters.maxEmployees f)
          && Company.gt (Company.filters.minEmployees f)
                        (Company.filters.maxEmployees f) = false) as ->.
  { destruct (Company.filters.minEmployees f) as [lo|]; [|done].
    destruct (Company.filters.maxEmployees f) as [hi|]; [|done].
    simpl. specialize (Hr lo hi eq_refl eq_refl). lia. }
  rewrite predicates_present. cbn [snd]. unfold query.
  by destruct (pg _ _ _).
Qed.

Lemma findFiltered_sends_one_statement_witness :
  issued (Company.findFiltered no_rows
            {| Company.filters.name := None;
               Company.filters.minEmployees := Some 5%Z;
               Company.filters.maxEmployees := Some 5%Z |} empty_world).2
  = [ {| text := "SELECT " +:+ Company.columns
                 +:+ " FROM companies WHEREnum_employees >= $1 AND "
                 +:+ "num_employees <= $2 ORDER BY name";
         params := [ PNumber 5; PNumber 5 ] |} ].
Proof.
  rewrite (findFiltered_sends_one_statement no_rows
             {| Company.filters.name := None;
                Company.filters.minEmployees := Some 5%Z;
                Company.filters.maxEmployees := Some 5%Z |} empty_world).
  - reflexivity.
  - intros lo hi [= <-] [= <-]. lia.
Defined.

(** ** [Company.get] *)

Lemma filter_all {X} (Q : X → Prop) `{!∀ x, Decision (Q x)} (l : list X) :
  (∀ x, x ∈ l → Q x) → filter Q l = l.
Proof.
  induction l as [|x l IH]; [done|]. intros Hl.
  rewrite filter_cons_True by (apply Hl; left).
  f_equal. apply IH. intros y Hy. apply Hl. by right.
Qed.

Lemma remove_dups_same (h : string) (l : list string) :
  l ≠ [] → (∀ x, x ∈ l → x = h) → remove_dups l = [ h ].
Proof.
  induction l as [|x l IH]; [done|]. intros _ Hl.
  assert (x = h) as -> by (apply Hl; left).
  simpl. case_decide as Hin.
  - apply IH; [by intros ->; apply elem_of_nil in Hin|].
    intros y Hy. apply Hl. by right.
  - destruct l as [|y l]; [done|].
    destruct Hin. rewrite (Hl y) by (right; left). left.
Qed.

Lemma filter_left_join_matched cs js c j m :
  NoDup (companies.handle <$> cs) →
  c ∈ cs →
  filter (fun j => companies.handle c = jobs.company_handle j) js = j :: m →
  filter (fun r => companies.handle r.1 = companies.handle c)
         (Company.left_join cs js)
  = (fun j => (c, Some j)) <$> j :: m.
Proof.
  intros Hnd Hc Hjs. unfold Company.left_join.
  induction cs as [|c' cs IH]; [by apply elem_of_nil in Hc|].
  rewrite fmap_cons, NoDup_cons in Hnd. destruct Hnd as [Hc' Hnd].
  rewrite bind_cons, filter_app.
  apply elem_of_cons in Hc as [<- | Hc].
  - fold (Company.left_join cs js).
    rewrite filter_left_join_other, app_nil_r by done.
    rewrite Hjs. apply filter_all.
    by intros r [j' [-> _]]%list_elem_of_fmap.
  - rewrite IH by done.
    assert (companies.handle c' ≠ companies.handle c) as Hne.
    { intros Heq. apply Hc'. rewrite Heq. by apply list_elem_of_fmap_2. }
    destruct (filter (fun j0 => companies.handle c' = jobs.company_handle j0)
                     js) as [|j' m'].
    + by rewrite filter_cons_False by done.
    + rewrite (filter_none _ (_ <$> j' :: m')); [done|].
      by intros r [j'' [-> _]]%list_elem_of_fmap.
Qed.

Lemma group_by_handle_matched c j m :
  Company.group_by_handle ((fun j => (c, Some j)) <$> j :: m)
  = [ {| Company.the_company := Company.of_row c;
         Company.jobs := Some (entry_of <$> j :: m) |} ].
Proof.
  unfold Company.group_by_handle.
  rewrite (remove_dups_same (companies.handle c)).
  - rewrite bind_cons. change ([] ≫= _) with (@nil Company.company_with_jobs).
    rewrite app_nil_r.
    rewrite filter_all by by intros r [j' [-> _]]%list_elem_of_fmap.
    rewrite !fmap_cons. cbn [Company.json_agg snd].
    rewrite <- !list_fmap_compose. do 4 f_equal.
  - done.
  - intros x [r [-> [j' [-> _]]%list_elem_of_fmap]]%list_elem_of_fmap. done.
Qed.

Lemma select_with_jobs_matched c t :
  NoDup (companies.handle <$> companies t) →
  c ∈ companies t →
  jobs_of (companies.handle c) t ≠ [] →
  (Company.select_with_jobs (companies.handle c) t).1
  = Return [ {| Company.the_company := Company.of_row c;
                Company.jobs :=
                  Some (entry_of <$> jobs_of (companies.handle c) t) |} ].
Proof.
  intros Hnd Hc Hj. unfold Company.select_with_jobs, jobs_of in *. cbn [fst].
  destruct (filter _ (jobs t)) as [|j m] eqn:Hf; [done|].
  erewrite filter_left_join_matched by done.
  by rewrite group_by_handle_matched.
Qed.

Lemma select_with_jobs_unknown h t :
  h ∉ companies.handle <$> companies t →
  Company.select_with_jobs h t = (Return [], t).
Proof.
  intros Hh. unfold Company.select_with_jobs.
  by rewrite filter_left_join_other.
Qed.

(** X6: [Company.get] on a handle no company has fails with
    [NotFoundError], after one statement and without changing the store. *)
Theorem get_unknown_handle handle w :
  handle ∉ companies.handle <$> companies (store w) →
  Company.get handle w
  = (Throw (NotFoundError (Text ("No company: " +:+ handle))),
     {| store := store w;
        issued := (issued w ++ [ {| text := Company.get_sql;
                                    params := [ PString handle ] |} ])%list |}).
Proof.
  intros Hh. unfold Company.get, bind, query.
  by rewrite select_with_jobs_unknown.
Qed.

Lemma get_unknown_handle_witness :
  (Company.get "apex" companies_world).1
  = Throw (NotFoundError (Text "No company: apex")).
Proof.
  rewrite (get_unknown_handle "apex" companies_world); [reflexivity|].
  apply (bool_decide_unpack _). vm_compute. exact I.
Defined.

(** X7: in a store where handles are unique, [Company.get] on a company
    that has jobs returns the attributes of the company and, as [jobs],
    an array holding, in some order, one entry per job of that company
    and no other, each with the id, title, salary and equity of its
    job. *)
Theorem get_lists_jobs c w :
  NoDup (companies.handle <$> companies (store w)) →
  c ∈ companies (store w) →
  jobs_of (companies.handle c) (store w) ≠ [] →
  ∃ entries,
    (Company.get (companies.handle c) w).1
    = Return {| Company.the_company := Company.of_row c;
                Company.jobs := Some entries |}
    ∧ entries ≡ₚ entry_of <$> jobs_of (companies.handle c) (store w).
Proof.
  intros Hnd Hc Hj.
  exists (entry_of <$> jobs_of (companies.handle c) (store w)).
  split; [|done]. unfold Company.get, bind, query.
  pose proof (select_with_jobs_matched c (store w) Hnd Hc Hj) as Hs.
  destruct (Company.select_with_jobs _ _) as [r t]. simpl in Hs. by subst r.
Qed.

Lemma get_lists_jobs_witness :
  ∃ entries,
    (Company.get "acme" companies_world).1
    = Return {| Company.the_company := Company.of_row acme;
                Company.jobs := Some entries |}
    ∧ entries ≡ₚ [ entry_of clerk; entry_of editor; entry_of intern ].
Proof.
  destruct (get_lists_jobs acme companies_world) as (entries & He & Hp).
  - apply (bool_decide_unpack _). vm_compute. exact I.
  - right. left.
  - discriminate.
  - exists entries. split; [exact He|].
    rewrite Hp. apply perm_swap.
Defined.

(** ** [Company.create], [Company.findAll] and [Company.remove] *)

Lemma select_handle_known c t :
  c ∈ companies t →
  ∃ rest, Company.select_handle (companies.handle c) t
          = (Return (companies.handle c :: rest), t).
Proof.
  intros Hc. unfold Company.select_handle.
  assert (c ∈ filter (fun c' => companies.handle c' = companies.handle c)
                     (companies t)) as Hin by by apply list_elem_of_filter.
  destruct (filter _ (companies t)) as [|c' l] eqn:Hf;
    [by apply elem_of_nil in Hin|].
  assert (companies.handle c' = companies.handle c) as Hc'.
  { assert (c' ∈ c' :: l) as Hm by left.
    rewrite <- Hf in Hm. by apply list_elem_of_filter in Hm as [? _]. }
  exists (companies.handle <$> l). by rewrite fmap_cons, Hc'.
Qed.

Lemma select_handle_unknown h t :
  h ∉ companies.handle <$> companies t →
  Company.select_handle h t = (Return [], t).
Proof.
  intros Hh. unfold Company.select_handle.
  rewrite filter_none; [done|].
  intros c Hc Heq. apply Hh. rewrite <- Heq. by apply list_elem_of_fmap_2.
Qed.

(** X8: [Company.create] with the handle of a company of the store fails
    with the duplicate error; only the duplicate check was sent, no
    [INSERT], and the store is unchanged. *)
Theorem create_duplicate pg data w :
  Company.handle data ∈ companies.handle <$> companies (store w) →
  Company.create pg data w
  = (Throw (BadRequestError
              (Text ("Duplicate company: " +:+ Company.handle data))),
     {| store := store w;
        issued :=
          (issued w ++ [ {| text := Company.duplicateCheck_sql;
                            params := [ PString (Company.handle data) ] |} ])
            %list |}).
Proof.
  intros [c [Hh Hc]]%list_elem_of_fmap.
  unfold Company.create, bind, query.
  destruct (select_handle_known c (store w) Hc) as [rest Hs].
  by rewrite Hh, Hs.
Qed.

Lemma create_duplicate_witness :
  (Company.create no_rows (Company.of_row acme) acme_world).1
  = Throw (BadRequestError (Text "Duplicate company: acme")).
Proof.
  rewrite (create_duplicate no_rows (Company.of_row acme) acme_world);
    [reflexivity|].
  apply (bool_decide_unpack _). vm_compute. exact I.
Defined.

(** X9: [Company.create] with a handle no company has sends the duplicate
    check and then one [INSERT] whose five arguments are the handle, name,
    description, number of employees and logo of the data, in this order,
    absent ones as NULL; it returns the first row the store returns for
    the [INSERT] and lets a failure of the store through. *)
Theorem create_fresh pg data w :
  Company.handle data ∉ companies.handle <$> companies (store w) →
  let args :=
    [ PString (Company.handle data);
      PString (Company.name data);
      PString (Company.description data);
      from_option PNumber PNull (Company.numEmployees data);
      from_option PString PNull (Company.logoUrl data) ] in
  Company.create pg data w
  = (match (pg Company.insert_sql args (store w)).1 with
     | Return rows => Return (rows !! 0)
     | Throw e => Throw e
     end,
     {| store := (pg Company.insert_sql args (store w)).2;
        issued :=
          (issued w
           ++ [ {| text := Company.duplicateCheck_sql;
                   params := [ PString (Company.handle data) ] |};
                {| text := Company.insert_sql; params := args |} ])%list |}).
Proof.
  intros Hh args. unfold Company.create, bind, query.
  rewrite select_handle_unknown by done. cbn [store issued lookup list_lookup].
  fold args. destruct (pg _ _ _) as [[rows|e] t]; cbn [fst snd];
    by rewrite <- app_assoc.
Qed.

Lemma create_fresh_witness :
  issued (Company.create no_rows (Company.of_row bolt) acme_world).2
  = [ {| text := "SELECT handle FROM companies WHERE handle = $1";
         params := [ PString "bolt" ] |};
      {| text := Company.insert_sql;
         params := [ PString "bolt"; PString "Bolt"; PString "Fasteners";
                     PNull; PString "/logos/bolt.png" ] |} ].
Proof.
  rewrite (create_fresh no_rows (Company.of_row bolt) acme_world);
    [reflexivity|].
  apply (bool_decide_unpack _). vm_compute. exact I.
Defined.

Lemma collate_Total {X} (collate : string → string → bool) (key : X → string) :
  (∀ a b, collate a b = true ∨ collate b a = true) →
  Total (fun x y : X => collate (key x) (key y)).
Proof.
  intros Ht x y. destruct (Ht (key x) (key y)) as [-> | ->]; [by left|by right].
Qed.

(** X10: when the collation is total, [Company.findAll] returns every
    company of the store exactly once, ordered by name, after one
    statement without arguments and without changing the store. *)
Theorem findAll_companies_sorted collate w :
  (∀ a b, collate a b = true ∨ collate b a = true) →
  ∃ found,
    Company.findAll collate w
    = (Return found,
       {| store := store w;
          issued := (issued w ++ [ {| text := Company.findAll_sql;
                                      params := [] |} ])%list |})
    ∧ found ≡ₚ Company.of_row <$> companies (store w)
    ∧ Sorted (fun a b => collate (Company.name a) (Company.name b)) found.
Proof.
  intros Ht. eexists. split; [reflexivity|]. split.
  - by rewrite merge_sort_Permutation.
  - eapply Sorted_fmap; [|apply Sorted_merge_sort, (collate_Total _ _ Ht)].
    by intros x y.
Qed.

Lemma findAll_companies_sorted_witness :
  (Company.findAll String.leb companies_world).1
  = Return [ Company.of_row acme; Company.of_row bolt ].
Proof.
  destruct (findAll_companies_sorted String.leb companies_world
              String.leb_total) as (found & Hf & _).
  rewrite Hf. vm_compute in Hf. by injection Hf as <-.
Defined.

(** X11: [Company.remove] on a handle no company has fails with
    [NotFoundError] and leaves the store as it was, whatever the store
    does with the jobs of a deleted company. *)
Theorem remove_unknown_handle cascade handle w :
  handle ∉ companies.handle <$> companies (store w) →
  Company.remove cascade handle w
  = (Throw (NotFoundError (Text ("No company: " +:+ handle))),
     {| store := store w;
        issued := (issued w ++ [ {| text := Company.remove_sql;
                                    params := [ PString handle ] |} ])%list |}).
Proof.
  intros Hh. unfold Company.remove, bind, query, Company.delete_company.
  rewrite filter_none; [done|].
  intros c Hc Heq. apply Hh. rewrite <- Heq. by apply list_elem_of_fmap_2.
Qed.

Lemma remove_unknown_handle_witness :
  (Company.remove true "apex" companies_world).1
  = Throw (NotFoundError (Text "No company: apex")).
Proof.
  rewrite (remove_unknown_handle true "apex" companies_world); [reflexivity|].
  apply (bool_decide_unpack _). vm_compute. exact I.
Defined.

Lemma delete_company_gone cascade h t rows t' :
  Company.delete_company cascade h t = (Return rows, t') →
  rows = [] ∨ h ∉ companies.handle <$> companies t'.
Proof.
  unfold Company.delete_company.
  assert (h ∉ companies.handle <$>
                filter (fun c => companies.handle c ≠ h) (companies t))
    as Hgone.
  { intros [c [-> Hc]]%list_elem_of_fmap.
    by apply list_elem_of_filter in Hc as [? _]. }
  destruct (filter (fun c => companies.handle c = h) (companies t));
    [intros [= <- _]; by left|].
  destruct (filter _ (jobs t)), cascade; intros [= <- <-]; by right.
Qed.

(** X12: after a [Company.remove] that succeeded, [Company.get] on the
    same handle fails with [NotFoundError]. *)
Theorem remove_then_get cascade handle w :
  (Company.remove cascade handle w).1 = Return tt →
  (Company.get handle (Company.remove cascade handle w).2).1
  = Throw (NotFoundError (Text ("No company: " +:+ handle))).
Proof.
  unfold Company.remove, bind, query.
  destruct (Company.delete_company cascade handle (store w))
    as [[rows|e] t'] eqn:Hd; [|done].
  apply delete_company_gone in Hd as [-> | Hgone]; [done|].
  destruct rows; [done|]. intros _. cbn [snd lookup list_lookup].
  unfold ret. cbn [snd].
  unfold Company.get, bind, query. cbn [store].
  by rewrite select_with_jobs_unknown.
Qed.

Lemma remove_then_get_witness :
  (Company.get "acme" (Company.remove true "acme" companies_world).2).1
  = Throw (NotFoundError (Text "No company: acme")).
Proof.
  apply (remove_then_get true "acme" companies_world). reflexivity.
Defined.

(** ** [Job.create], [Job.get], [Job.remove] and [Job.findAll] *)

Lemma create_store d w :
  Job.data.companyHandle d ∈ companies.handle <$> companies (store w) →
  Job.create d w
  = (Return (Some (Job.of_row (inserted d (store w)))),
     {| store := {| companies := companies (store w);
                    jobs := (jobs (store w) ++ [ inserted d (store w) ])%list;
                    jobs_id_seq := (jobs_id_seq (store w) + 1)%Z |};
        issued :=
          (issued w
           ++ [ {| text := Job.create_sql;
                   params :=
                     [ PString (Job.data.title d);
                       from_option PNumber PNull (Job.data.salary d);
                       from_option PNumeric PNull (Job.data.equity d);
                       PString (Job.data.companyHandle d) ] |} ])%list |}).
Proof.
  intros Hc. unfold Job.create, bind, query, Job.insert_job.
  by rewrite bool_decide_eq_true_2 by done.
Qed.

(** X13: in a store where handles are unique, once [Job.create] has added
    a job for an existing company, the [jobs] array [Company.get] returns
    for that company holds, in some order, the jobs the company had
    before and the new job, each once. *)
Theorem create_job_then_get d c w :
  NoDup (companies.handle <$> companies (store w)) →
  c ∈ companies (store w) →
  Job.data.companyHandle d = companies.handle c →
  ∃ entries,
    (Company.get (companies.handle c) (Job.create d w).2).1
    = Return {| Company.the_company := Company.of_row c;
                Company.jobs := Some entries |}
    ∧ entries ≡ₚ entry_of <$>
                   inserted d (store w)
                   :: jobs_of (companies.handle c) (store w).
Proof.
  intros Hnd Hc Hd.
  exists (entry_of <$> (jobs_of (companies.handle c) (store w)
                        ++ [ inserted d (store w) ])%list).
  split; [|by rewrite <- Permutation_cons_append].
  rewrite create_store
    by (rewrite Hd; by apply list_elem_of_fmap_2). cbn [snd].
  unfold Company.get, bind, query. cbn [store].
  set (t' := {| companies := companies (store w);
                jobs := (jobs (store w) ++ [ inserted d (store w) ])%list;
                jobs_id_seq := (jobs_id_seq (store w) + 1)%Z |}).
  assert (jobs_of (companies.handle c) t'
          = (jobs_of (companies.handle c) (store w)
             ++ [ inserted d (store w) ])%list) as Hj.
  { unfold jobs_of, t'. cbn [jobs]. rewrite filter_app. f_equal.
    by rewrite filter_cons_True by done. }
  pose proof (select_with_jobs_matched c t' Hnd Hc) as Hs.
  rewrite Hj in Hs.
  destruct (Company.select_with_jobs _ t') as [r t'']. cbn [fst] in Hs.
  rewrite Hs; [done|]. by intros [_ [=]]%app_nil.
Qed.

Lemma create_job_then_get_witness :
  ∃ entries,
    (Company.get "acme" (Job.create smith companies_world).2).1
    = Return {| Company.the_company := Company.of_row acme;
                Company.jobs := Some entries |}
    ∧ entries ≡ₚ [ {| Company.id := Some 4%Z;
                      Company.title := Some "Smith";
                      Company.salary := Some 100%Z;
                      Company.equity := Some 0%Q |};
                   entry_of editor; entry_of clerk; entry_of intern ].
Proof.
  destruct (create_job_then_get smith acme companies_world)
    as (entries & He & Hp).
  - apply (bool_decide_unpack _). vm_compute. exact I.
  - right. left.
  - reflexivity.
  - exists entries. split; [exact He|exact Hp].
Defined.

(** X14: in a store whose job ids all lie below the sequence,
    [Job.create] for an existing company returns the new job, and
    [Job.get] on a text the store reads as its id returns the same job. *)
Theorem create_then_get_job int4in d w id :
  ids_below_seq (store w) →
  Job.data.companyHandle d ∈ companies.handle <$> companies (store w) →
  int4in id = Some (jobs_id_seq (store w)) →
  (Job.create d w).1 = Return (Some (Job.of_row (inserted d (store w))))
  ∧ (Job.get int4in id (Job.create d w).2).1
    = Return (Job.of_row (inserted d (store w))).
Proof.
  intros Hinv Hc Hid. rewrite create_store by done. split; [done|].
  cbn [snd]. unfold Job.get, bind, query, Job.select_job. cbn [store jobs].
  rewrite Hid, filter_app.
  rewrite filter_none.
  - by rewrite filter_cons_True by done.
  - intros j Hj Heq. specialize (Hinv j Hj). lia.
Qed.

Lemma create_then_get_job_witness :
  (Job.get sample_int4in "1" (Job.create smith acme_world).2).1
  = Return {| Job.id := 1; Job.title := "Smith"; Job.salary := Some 100%Z;
              Job.equity := Some 0%Q; Job.companyHandle := "acme" |}.
Proof.
  apply (create_then_get_job sample_int4in smith acme_world "1").
  - intros j Hj. by apply elem_of_nil in Hj.
  - apply (bool_decide_unpack _). vm_compute. exact I.
  - reflexivity.
Defined.

(** X15: [Job.get] on a text the store reads as an id no job has fails
    with [NotFoundError], after one statement and without changing the
    store. *)
Theorem get_unknown_job int4in id n w :
  int4in id = Some n →
  (∀ j, j ∈ jobs (store w) → jobs.id j ≠ n) →
  Job.get int4in id w
  = (Throw (NotFoundError (Text ("No job with ID: " +:+ id))),
     {| store := store w;
        issued := (issued w ++ [ {| text := Job.get_sql;
                                    params := [ PString id ] |} ])%list |}).
Proof.
  intros Hid Hn. unfold Job.get, bind, query, Job.select_job.
  by rewrite Hid, filter_none.
Qed.

Lemma get_unknown_job_witness :
  Job.get sample_int4in "1" editor_intern_world
  = (Throw (NotFoundError (Text "No job with ID: 1")),
     {| store := store editor_intern_world;
        issued :=
          [ {| text := "SELECT " +:+ Job.columns +:+ " FROM jobs WHERE id = $1";
               params := [ PString "1" ] |} ] |}).
Proof.
  apply (get_unknown_job sample_int4in "1" 1 editor_intern_world);
    [reflexivity|].
  intros j Hj.
  repeat (apply elem_of_cons in Hj as [-> | Hj]; [discriminate|]).
  by apply elem_of_nil in Hj.
Defined.

(** X16: [Job.remove] on a text the store reads as an id no job has fails
    with [NotFoundError] and leaves the store as it was. *)
Theorem remove_unknown_job int4in id n w :
  int4in id = Some n →
  (∀ j, j ∈ jobs (store w) → jobs.id j ≠ n) →
  Job.remove int4in id w
  = (Throw (NotFoundError (Text ("No job with ID: " +:+ id))),
     {| store := store w;
        issued := (issued w ++ [ {| text := Job.remove_sql;
                                    params := [ PString id ] |} ])%list |}).
Proof.
  intros Hid Hn. unfold Job.remove, bind, query, Job.delete_job.
  rewrite Hid, filter_none by done.
  rewrite filter_all by done. by destruct (store w).
Qed.

Lemma remove_unknown_job_witness :
  Job.remove sample_int4in "1" editor_intern_world
  = (Throw (NotFoundError (Text "No job with ID: 1")),
     {| store := store editor_intern_world;
        issued := [ {| text := "DELETE FROM jobs WHERE id = $1 RETURNING id";
                       params := [ PString "1" ] |} ] |}).
Proof.
  apply (remove_unknown_job sample_int4in "1" 1 editor_intern_world);
    [reflexivity|].
  intros j Hj.
  repeat (apply elem_of_cons in Hj as [-> | Hj]; [discriminate|]).
  by apply elem_of_nil in Hj.
Defined.

Lemma filter_id_after_delete (n n' : Z) (l : list jobs.row) :
  filter (fun j => jobs.id j = n') (filter (fun j => jobs.id j ≠ n) l)
  = if decide (n' = n) then [] else filter (fun j => jobs.id j = n') l.
Proof.
  rewrite list_filter_filter. case_decide as Hn.
  - apply filter_none. intros j _ [? ?]. congruence.
  - apply list_filter_iff. intros j. split; [by intros [? _]|].
    intros Hj. split; [done|congruence].
Qed.

(** X17: after a [Job.remove] that succeeded, [Job.get] on the same id
    fails with [NotFoundError]. *)
Theorem remove_job_then_get int4in id w :
  (Job.remove int4in id w).1 = Return tt →
  (Job.get int4in id (Job.remove int4in id w).2).1
  = Throw (NotFoundError (Text ("No job with ID: " +:+ id))).
Proof.
  unfold Job.remove, Job.get, bind, query, Job.delete_job, Job.select_job.
  destruct (int4in id) as [n|] eqn:Hid; [|done].
  destruct (filter (fun j => jobs.id j = n) (jobs (store w))); [done|].
  intros _. cbn [fst snd store jobs lookup list_lookup fmap list_fmap ret].
  rewrite filter_id_after_delete. by rewrite decide_True by done.
Qed.

Lemma remove_job_then_get_witness :
  (Job.get sample_int4in "2" (Job.remove sample_int4in "2" jobs_world).2).1
  = Throw (NotFoundError (Text "No job with ID: 2")).
Proof.
  apply (remove_job_then_get sample_int4in "2" jobs_world). reflexivity.
Defined.

(** X18: [Job.remove] on one id does not change what [Job.get] returns
    for a different id. *)
Theorem remove_job_keeps_others int4in id id' n n' w :
  int4in id = Some n →
  int4in id' = Some n' →
  n ≠ n' →
  (Job.get int4in id' (Job.remove int4in id w).2).1
  = (Job.get int4in id' w).1.
Proof.
  intros Hid Hid' Hne.
  assert (store (Job.remove int4in id w).2
          = {| companies := companies (store w);
               jobs := filter (fun j => jobs.id j ≠ n) (jobs (store w));
               jobs_id_seq := jobs_id_seq (store w) |}) as Hs.
  { unfold Job.remove, bind, query, Job.delete_job. rewrite Hid.
    by destruct (filter (fun j => jobs.id j = n) (jobs (store w))). }
  revert Hs. generalize ((Job.remove int4in id w).2). intros w' Hs.
  unfold Job.get, bind, query, Job.select_job.
  rewrite Hs, Hid'. cbn [jobs]. rewrite filter_id_after_delete.
  rewrite decide_False by done.
  by destruct (Job.of_row <$> filter _ (jobs (store w))).
Qed.

Lemma remove_job_keeps_others_witness :
  (Job.get sample_int4in "1" (Job.remove sample_int4in "2" jobs_world).2).1
  = Return (Job.of_row clerk).
Proof.
  rewrite (remove_job_keeps_others sample_int4in "2" "1" 2 1 jobs_world);
    [reflexivity | reflexivity | reflexivity | lia].
Defined.

(** X19: when the collation is total, [Job.findAll] returns every job of
    the store exactly once, ordered by title, and leaves the store as it
    was. *)
Theorem findAll_jobs_sorted collate w :
  (∀ a b, collate a b = true ∨ collate b a = true) →
  ∃ found,
    Job.findAll collate w
    = (Return found,
       {| store := store w;
          issued := (issued w ++ [ {| text := Job.findAll_sql;
                                      params := [] |} ])%list |})
    ∧ found ≡ₚ Job.of_row <$> jobs (store w)
    ∧ Sorted (fun a b => collate (Job.title a) (Job.title b)) found.
Proof.
  intros Ht. eexists. split; [reflexivity|]. split.
  - by rewrite merge_sort_Permutation.
  - eapply Sorted_fmap; [|apply Sorted_merge_sort, (collate_Total _ _ Ht)].
    by intros x y.
Qed.

Lemma findAll_jobs_sorted_witness :
  (Job.findAll String.leb jobs_world).1
  = Return [ Job.of_row clerk; Job.of_row editor; Job.of_row intern ].
Proof.
  destruct (findAll_jobs_sorted String.leb jobs_world String.leb_total)
    as (found & Hf & _).
  rewrite Hf. vm_compute in Hf. by injection Hf as <-.
Defined.

(** ** The handlers of routes/jobs.js *)

(** X20: the handler of [PATCH /:id] never answers with a job and never
    reaches the store: it hands to [next] the validation error when the
    body is rejected, and otherwise the [TypeError] of [Job.update]. *)
Theorem PATCH_never_updates validate_update pg id (body : object param) w :
  JobsRoute.PATCH validate_update pg id body w
  = (Return
       (JobsRoute.pass
          (if negb (Nat.eqb (length (validate_update body)) 0)
           then BadRequestError (Stacks (validate_update body))
           else TypeError "sqlForPartialUpdate is not a function")),
     w).
Proof.
  unfold JobsRoute.PATCH, JobsRoute.try_next, JobsRoute.check, bind.
  by destruct (negb _).
Qed.

(** X21: when the validation rejects the body, the handler of [POST /]
    hands a [BadRequestError] carrying the error stacks to [next] and
    sends nothing to the store. *)
Theorem POST_rejected_body validate_new body w :
  validate_new body ≠ [] →
  JobsRoute.POST validate_new body w
  = (Return (JobsRoute.pass (BadRequestError (Stacks (validate_new body)))),
     w).
Proof.
  intros Hv. unfold JobsRoute.POST, JobsRoute.try_next, JobsRoute.check, bind.
  by destruct (validate_new body).
Qed.

Lemma POST_rejected_body_witness :
  JobsRoute.POST (fun _ => [ "instance.salary is not of a type(s) integer" ])
    smith acme_world
  = (Return (JobsRoute.pass
               (BadRequestError
                  (Stacks [ "instance.salary is not of a type(s) integer" ]))),
     acme_world).
Proof.
  apply (POST_rejected_body
           (fun _ => [ "instance.salary is not of a type(s) integer" ])
           smith acme_world).
  discriminate.
Defined.

(** X22: on a text the store reads as the id of a job of the store, the
    handler of [DELETE /:id] answers with that text as [deleted]; the
    jobs with this id are gone from the store and the other jobs remain,
    in their order. *)
Theorem DELETE_existing int4in id n j w :
  int4in id = Some n →
  j ∈ jobs (store w) →
  jobs.id j = n →
  JobsRoute.DELETE int4in id w
  = (Return (JobsRoute.json_deleted id),
     {| store := {| companies := companies (store w);
                    jobs := filter (fun j => jobs.id j ≠ n) (jobs (store w));
                    jobs_id_seq := jobs_id_seq (store w) |};
        issued := (issued w ++ [ {| text := Job.remove_sql;
                                    params := [ PString id ] |} ])%list |}).
Proof.
  intros Hid Hj Hn.
  unfold JobsRoute.DELETE, JobsRoute.try_next, Job.remove, bind, query,
    Job.delete_job.
  rewrite Hid.
  assert (j ∈ filter (fun j => jobs.id j = n) (jobs (store w))) as Hin
    by by apply list_elem_of_filter.
  by destruct (filter (fun j => jobs.id j = n) (jobs (store w)));
    [apply elem_of_nil in Hin|].
Qed.

Lemma DELETE_existing_witness :
  (JobsRoute.DELETE sample_int4in "2" jobs_world).1
  = Return (JobsRoute.json_deleted "2")
  ∧ jobs (store (JobsRoute.DELETE sample_int4in "2" jobs_world).2)
    = [ clerk; intern ].
Proof.
  rewrite (DELETE_existing sample_int4in "2" 2 editor jobs_world);
    [split; reflexivity | reflexivity | left | reflexivity].
Defined.
